(** * Floating translucid box: tilt controller and bubble generator

    A shallow embedding of [Script.js] (classes [AnimationManager],
    [BubbleManager], [FloatingBox]) and of the part of [config.js] they
    read, with the properties of the tilt controller and of the bubble
    generator proved on it; further on, [generateCSSVariables] of
    [config.js] in its two versions.

    Numbers.  A JavaScript number is modelled as an exact rational or one
    of the three non-finite values [Infinity], [-Infinity], [NaN].  Finite
    arithmetic is exact (no rounding, no overflow); the non-finite cases
    follow IEEE 754 as JavaScript does.  The two IEEE zeros are identified,
    and a zero divisor counts as [+0].  Configuration values, pointer
    coordinates and the sides of a bounding box are finite numbers; the
    fields of [current] and [target], which the script computes, can be
    any number.  General statements are proved on these exact numbers and
    say so where rounding matters; the module [Double] further down is
    the same code on binary64 numbers and evaluates it where rounding
    decides the result.

    The DOM.  A [FloatingBox] carries the style properties the class
    writes; a bubble container is the list of its children.  Template
    strings are kept as the numbers they print.  [Math.random()] reads
    the next value of a stream that is a parameter. *)

From Stdlib Require Import QArith Qcanon Qcabs Qabs Qround Lqa Lia ZArith.
From Stdlib Require Import Bool List String.
From Stdlib Require DecimalString.
From Stdlib Require Import PrimFloat.
Import ListNotations.

Open Scope Qc_scope.

(** ** Canonical rationals: comparisons that compute *)

Definition Qcltb (a b : Qc) : bool :=
  match a ?= b with Lt => true | _ => false end.


Definition Qceqb (a b : Qc) : bool :=
  match a ?= b with Eq => true | _ => false end.

(** Decimal and fraction literals of the source. *)
Definition qc (n : Z) (d : positive) : Qc := Q2Qc (n # d).

(** ** JavaScript numbers *)

Module Num.

Inductive number : Type :=
| Fin (q : Qc)
| Inf (plus : bool)      (* [Inf true] is Infinity, [Inf false] is -Infinity *)
| NaN.

Definition Infinity : number := Inf true.

Definition isFinite (a : number) : bool :=
  match a with Fin _ => true | _ => false end.

(** [-a] *)
Definition neg (a : number) : number :=
  match a with
  | Fin q => Fin (- q)
  | Inf s => Inf (negb s)
  | NaN => NaN
  end.

(** [a + b] *)
Definition add (a b : number) : number :=
  match a, b with
  | NaN, _ | _, NaN => NaN
  | Fin x, Fin y => Fin (x + y)
  | Fin _, Inf s => Inf s
  | Inf s, Fin _ => Inf s
  | Inf s, Inf t => if Bool.eqb s t then Inf s else NaN
  end.

(** [a - b] *)
Definition sub (a b : number) : number := add a (neg b).

(** [a * b] *)
Definition mul (a b : number) : number :=
  match a, b with
  | NaN, _ | _, NaN => NaN
  | Fin x, Fin y => Fin (x * y)
  | Fin x, Inf s | Inf s, Fin x =>
      match x ?= 0 with
      | Eq => NaN
      | Gt => Inf s
      | Lt => Inf (negb s)
      end
  | Inf s, Inf t => Inf (Bool.eqb s t)
  end.

(** [a / b] *)
Definition div (a b : number) : number :=
  match a, b with
  | NaN, _ | _, NaN => NaN
  | Fin x, Fin y =>
      if Qceqb y 0 then
        match x ?= 0 with
        | Eq => NaN
        | Gt => Inf true
        | Lt => Inf false
        end
      else Fin (x / y)
  | Fin _, Inf _ => Fin 0
  | Inf s, Fin y => if Qcltb y 0 then Inf (negb s) else Inf s
  | Inf _, Inf _ => NaN
  end.

(** [Math.abs(a)] *)
Definition Math_abs (a : number) : number :=
  match a with
  | Fin q => Fin (Qcabs q)
  | Inf _ => Inf true
  | NaN => NaN
  end.

(** [a < b]: false as soon as one side is NaN. *)
Definition lt (a b : number) : bool :=
  match a, b with
  | NaN, _ | _, NaN => false
  | Fin x, Fin y => Qcltb x y
  | Fin _, Inf s => s
  | Inf s, Fin _ => negb s
  | Inf s, Inf t => negb s && t
  end.


(** [a.toFixed(2)], the decimal string being represented by the number
    it denotes: the nearest multiple of 1/100, a tie going away from
    zero (the digits printed for magnitudes below 10^21); a non-finite
    number prints as itself. *)
Definition toFixed2 (a : number) : number :=
  match a with
  | Fin q =>
      let n := Qfloor (Qabs q * 100 + (1 # 2))%Q in
      Fin (Q2Qc ((if Qcltb q 0 then (- n)%Z else n) # 100))
  | other => other
  end.

End Num.

Import Num.

(** ** AnimationManager *)

Module AnimationManager.

(** [static lerp(start, end, factor)] *)
Definition lerp (start end_ factor : number) : number :=
  add start (mul (sub end_ start) factor).

(** The same expression on finite values. *)
Definition lerpQ (start end_ factor : Qc) : Qc :=
  start + (end_ - start) * factor.

End AnimationManager.

Import AnimationManager.

(** ** Configuration: the part of [CONFIG] read by [Script.js] *)

Record BoxConfig : Type := {
  rotationMax : Qc;
  hoverHeight : Qc;
  motionSpeed : Qc;
  glowOpacity : Qc;
  transitionDuration : string;
  transitionTiming : string;
  snapThreshold : Qc
}.

(** [CONFIG.box] as shipped in [config.js]. *)
Definition CONFIG_box : BoxConfig := {|
  rotationMax := qc 15 1;
  hoverHeight := qc 100 1;
  motionSpeed := qc 25 100;
  glowOpacity := qc 2 10;
  transitionDuration := "0.5s";
  transitionTiming := "ease-out";
  snapThreshold := qc 1 100
|}.

(** ** FloatingBox *)

(** The object [{ rotateX, rotateY, translateZ }]. *)
Record Orientation : Type := {
  rotateX : number;
  rotateY : number;
  translateZ : number
}.

(** The property names the frame update iterates over. *)
Inductive PropName : Type := P_rotateX | P_rotateY | P_translateZ.

(** [o[prop]] *)
Definition getProp (prop : PropName) (o : Orientation) : number :=
  match prop with
  | P_rotateX => rotateX o
  | P_rotateY => rotateY o
  | P_translateZ => translateZ o
  end.

(** [o[prop] = v] *)
Definition setProp (prop : PropName) (v : number) (o : Orientation) : Orientation :=
  match prop with
  | P_rotateX => {| rotateX := v; rotateY := rotateY o; translateZ := translateZ o |}
  | P_rotateY => {| rotateX := rotateX o; rotateY := v; translateZ := translateZ o |}
  | P_translateZ => {| rotateX := rotateX o; rotateY := rotateY o; translateZ := v |}
  end.

(** The literal [{ rotateX: 0, rotateY: 0, translateZ: 0 }]. *)
Definition zeroOrientation : Orientation :=
  {| rotateX := Fin 0; rotateY := Fin 0; translateZ := Fin 0 |}.

(** The part of a [MouseEvent] the handlers read, in pixels. *)
Record MouseEvent : Type := { clientX : Qc; clientY : Qc }.

(** The part of the [DOMRect] of [getBoundingClientRect()] that is read. *)
Record DOMRect : Type := { left : Qc; top : Qc; width : Qc; height : Qc }.

(** A [FloatingBox] instance with the style properties it writes:
    [box.style.transition], [box.style.transform] (the three lengths and
    angles in the order they are written), [glow.style.opacity] and the
    custom properties [--mouse-x], [--mouse-y] of the glow.  [None] is a
    style property the script has not written yet. *)
Record FloatingBox : Type := {
  current : Orientation;
  target : Orientation;
  isHovered : bool;
  style_transition : option string;
  style_transform : option (list (string * number));
  glow_opacity : option Qc;
  glow_mouse_x : option number;
  glow_mouse_y : option number
}.

Module FloatingBox.

(** [constructor(element)] *)
Definition constructor : FloatingBox := {|
  current := {| rotateX := Fin 0; rotateY := Fin 0; translateZ := Fin 0 |};
  target := {| rotateX := Fin 0; rotateY := Fin 0; translateZ := Fin 0 |};
  isHovered := false;
  style_transition := None;
  style_transform := None;
  glow_opacity := None;
  glow_mouse_x := None;
  glow_mouse_y := None
|}.

Section WithConfig.

Variable cfg : BoxConfig.

(** [(e.clientX - rect.left) / rect.width] *)
Definition fractionX (e : MouseEvent) (rect : DOMRect) : number :=
  div (sub (Fin (clientX e)) (Fin (left rect))) (Fin (width rect)).

(** [(e.clientY - rect.top) / rect.height] *)
Definition fractionY (e : MouseEvent) (rect : DOMRect) : number :=
  div (sub (Fin (clientY e)) (Fin (top rect))) (Fin (height rect)).

(** [(e.clientX - rect.left) / rect.width * 2 - 1], the [x] of
    [handleMouseMove] *)
Definition normX (e : MouseEvent) (rect : DOMRect) : number :=
  sub (mul (fractionX e rect) (Fin (qc 2 1))) (Fin 1).

(** [(e.clientY - rect.top) / rect.height * 2 - 1], the [y] of
    [handleMouseMove] *)
Definition normY (e : MouseEvent) (rect : DOMRect) : number :=
  sub (mul (fractionY e rect) (Fin (qc 2 1))) (Fin 1).

(** [updateGlowPosition(e, rect)] *)
Definition updateGlowPosition (e : MouseEvent) (rect : DOMRect)
    (fb : FloatingBox) : FloatingBox :=
  let x := toFixed2 (mul (fractionX e rect) (Fin (qc 100 1))) in
  let y := toFixed2 (mul (fractionY e rect) (Fin (qc 100 1))) in
  {| current := current fb;
     target := target fb;
     isHovered := isHovered fb;
     style_transition := style_transition fb;
     style_transform := style_transform fb;
     glow_opacity := glow_opacity fb;
     glow_mouse_x := Some x;
     glow_mouse_y := Some y |}.

(** [handleMouseMove(e)], with the rectangle that
    [this.box.getBoundingClientRect()] returns. *)
Definition handleMouseMove (e : MouseEvent) (rect : DOMRect)
    (fb : FloatingBox) : FloatingBox :=
  if negb (isHovered fb) then fb
  else
    let x := normX e rect in
    let y := normY e rect in
    let fb1 :=
      {| current := current fb;
         target := {| rotateX := mul (neg y) (Fin (rotationMax cfg));
                      rotateY := mul x (Fin (rotationMax cfg));
                      translateZ := Fin (hoverHeight cfg) |};
         isHovered := isHovered fb;
         style_transition := style_transition fb;
         style_transform := style_transform fb;
         glow_opacity := glow_opacity fb;
         glow_mouse_x := glow_mouse_x fb;
         glow_mouse_y := glow_mouse_y fb |} in
    updateGlowPosition e rect fb1.

(** [handleMouseEnter()] *)
Definition handleMouseEnter (fb : FloatingBox) : FloatingBox :=
  {| current := current fb;
     target := target fb;
     isHovered := true;
     style_transition := Some "none"%string;
     style_transform := style_transform fb;
     glow_opacity := Some (glowOpacity cfg);
     glow_mouse_x := glow_mouse_x fb;
     glow_mouse_y := glow_mouse_y fb |}.

(** [handleMouseLeave()] *)
Definition handleMouseLeave (fb : FloatingBox) : FloatingBox :=
  {| current := current fb;
     target := {| rotateX := Fin 0; rotateY := Fin 0; translateZ := Fin 0 |};
     isHovered := false;
     style_transition :=
       Some ("transform " ++ transitionDuration cfg ++ " "
               ++ transitionTiming cfg)%string;
     style_transform := style_transform fb;
     glow_opacity := Some 0;
     glow_mouse_x := glow_mouse_x fb;
     glow_mouse_y := glow_mouse_y fb |}.

(** The array [['rotateX', 'rotateY', 'translateZ']]. *)
Definition props : list PropName := [P_rotateX; P_rotateY; P_translateZ].

(** The [forEach] of [updateTransforms]: each property of [current] in
    turn is overwritten with its interpolation toward [target]. *)
Definition interpolate (speed : number) (tgt cur : Orientation) : Orientation :=
  fold_left
    (fun c prop => setProp prop (lerp (getProp prop c) (getProp prop tgt) speed) c)
    props cur.

(** [isNearRest()], reading [this.state.current]. *)
Definition isNearRest (cur : Orientation) : bool :=
  forallb
    (fun prop => lt (Math_abs (getProp prop cur)) (Fin (snapThreshold cfg)))
    props.

(** The [if] of [updateTransforms]:
    [Object.assign(current, { rotateX: 0, rotateY: 0, translateZ: 0 })]
    when not hovered and near rest. *)
Definition restSnap (hovered : bool) (cur : Orientation) : Orientation :=
  if negb hovered && isNearRest cur
  then {| rotateX := Fin 0; rotateY := Fin 0; translateZ := Fin 0 |}
  else cur.

(** [updateTransforms()] *)
Definition updateTransforms (fb : FloatingBox) : FloatingBox :=
  let speed := Fin (motionSpeed cfg) in
  let cur := interpolate speed (target fb) (current fb) in
  let cur := restSnap (isHovered fb) cur in
  {| current := cur;
     target := target fb;
     isHovered := isHovered fb;
     style_transition := style_transition fb;
     style_transform :=
       Some [("translateZ"%string, translateZ cur);
             ("rotateX"%string, rotateX cur);
             ("rotateY"%string, rotateY cur)];
     glow_opacity := glow_opacity fb;
     glow_mouse_x := glow_mouse_x fb;
     glow_mouse_y := glow_mouse_y fb |}.

(** [updateFrame()]: one animation frame; the follow-up frame that
    [requestAnimationFrame] schedules is the next [Frame] event. *)
Definition updateFrame (fb : FloatingBox) : FloatingBox :=
  updateTransforms fb.

(** What can happen to a box once it is constructed. *)
Inductive Event : Type :=
| MouseEnter
| MouseMove (e : MouseEvent) (rect : DOMRect)
| MouseLeave
| Frame.

Definition step (fb : FloatingBox) (ev : Event) : FloatingBox :=
  match ev with
  | MouseEnter => handleMouseEnter fb
  | MouseMove e rect => handleMouseMove e rect fb
  | MouseLeave => handleMouseLeave fb
  | Frame => updateFrame fb
  end.

(** The event sequences in which every event is admitted by [adm] in
    the state it arrives in. *)
Inductive reachable_by (adm : FloatingBox -> Event -> Prop) : FloatingBox -> Prop :=
| reach_constructor : reachable_by adm constructor
| reach_step : forall fb ev,
    reachable_by adm fb -> adm fb ev -> reachable_by adm (step fb ev).

Definition reachable : FloatingBox -> Prop := reachable_by (fun _ _ => True).

(** Running a list of events from the constructed box. *)
Definition run (evs : list Event) : FloatingBox := fold_left step evs constructor.

End WithConfig.

End FloatingBox.


(** ** BubbleManager *)

(** [CONFIG.bubbles] *)
Record BubblesConfig : Type := {
  count : Qc;
  size_base : Qc;
  size_variance : Qc;
  colors : list string;
  gradients : list string;
  duration_base : Qc;
  duration_variance : Qc
}.

(** [CONFIG.bubbles] as shipped in [config.js]. *)
Definition CONFIG_bubbles : BubblesConfig := {|
  count := qc 50 1;
  size_base := qc 50 1;
  size_variance := qc 30 1;
  colors :=
    ["rgba(255, 107, 107, 1)"; "rgba(147, 64, 255, 1)"; "rgba(77, 171, 247, 1)";
     "rgba(255, 189, 89, 1)"; "rgba(76, 217, 105, 1)"; "rgba(252, 83, 154, 1)";
     "rgba(59, 178, 208, 1)"; "rgba(255, 145, 48, 1)"; "rgba(180, 129, 255, 1)";
     "rgba(255, 223, 89, 1)"]%string;
  gradients :=
    ["linear-gradient(45deg, rgba(255,107,107,1), rgba(255,189,89,1))";
     "linear-gradient(45deg, rgba(147,64,255,1), rgba(77,171,247,1))";
     "linear-gradient(45deg, rgba(252,83,154,1), rgba(180,129,255,1))";
     "linear-gradient(45deg, rgba(76,217,105,1), rgba(59,178,208,1))"]%string;
  duration_base := qc 12 1;
  duration_variance := qc 4 1
|}.

(** The style of one bubble element: [width] and [height] (both [size]),
    [background] ([None] is [undefined]), [left] in percent, [--drift-x],
    [--sway-amount], the periods of the [floatUp] and [sway] animations,
    and the delay subtracted in [animationDelay]. *)
Record Bubble : Type := {
  size : Qc;
  background : option string;
  left_percent : Qc;
  driftX : Qc;
  swayAmount : Qc;
  duration : Qc;
  swayDuration : Qc;
  startDelay : Qc;
  mixBlendMode : string
}.

Module BubbleManager.

(** The manager is its container's list of children, oldest first. *)
Definition Container : Type := list Bubble.

(** A computation that draws from the random stream: from the position of
    the next draw to a result and the position after it. *)
Definition Rand (A : Type) : Type := nat -> A * nat.

Definition ret {A : Type} (a : A) : Rand A := fun i => (a, i).

Definition bind {A B : Type} (m : Rand A) (k : A -> Rand B) : Rand B :=
  fun i => let (a, j) := m i in k a j.

Notation "x <- m ;; k" := (bind m (fun x => k))
  (at level 61, m at next level, right associativity).

Section WithRandom.

(** The values successive calls of [Math.random()] return. *)
Variable random_stream : nat -> Qc.

Variable cfg : BubblesConfig.

(** [Math.random()] *)
Definition Math_random : Rand Qc := fun i => (random_stream i, S i).

(** [arr[index]] for an integer index; [None] is [undefined]. *)
Definition array_get {A : Type} (arr : list A) (index : Z) : option A :=
  if (index <? 0)%Z then None else nth_error arr (Z.to_nat index).

(** [Math.floor(Math.random() * arr.length)] applied to a drawn value *)
Definition random_index {A : Type} (r : Qc) (arr : list A) : Z :=
  Qfloor (r * Q2Qc (inject_Z (Z.of_nat (List.length arr)))).

(** [getRandomColor()] *)
Definition getRandomColor : Rand (option string) :=
  r <- Math_random ;;
  if Qcltb r (qc 3 10) then
    r' <- Math_random ;;
    ret (array_get (gradients cfg) (random_index r' (gradients cfg)))
  else
    r' <- Math_random ;;
    ret (array_get (colors cfg) (random_index r' (colors cfg))).

(** [createBubble()]: the draws in the order the source evaluates them. *)
Definition createBubble (container : Container) : Rand Container :=
  r_size <- Math_random ;;
  let size := size_base cfg + r_size * size_variance cfg in
  r_duration <- Math_random ;;
  let duration := duration_base cfg + r_duration * duration_variance cfg in
  r_delay <- Math_random ;;
  let startDelay := r_delay * duration in
  r_drift <- Math_random ;;
  let driftX := (r_drift - qc 1 2) * qc 100 1 in
  r_sway <- Math_random ;;
  let swayAmount := (r_sway - qc 1 2) * qc 40 1 in
  color <- getRandomColor ;;
  r_left <- Math_random ;;
  let bubble :=
    {| size := size;
       background := color;
       left_percent := r_left * qc 100 1;
       driftX := driftX;
       swayAmount := swayAmount;
       duration := duration;
       swayDuration := duration * qc 1 2;
       startDelay := startDelay;
       mixBlendMode := "screen" |} in
  ret (container ++ [bubble]).

(** The loop [for (let i = 0; i < CONFIG.bubbles.count; i++)] of
    [initialize()], from a given [i]; [None] when [fuel] iterations do not
    reach the end of the loop. *)
Fixpoint initialize_from (fuel : nat) (i : Z) (container : Container)
    (pos : nat) : option (Container * nat) :=
  if Qcltb (Q2Qc (inject_Z i)) (count cfg) then
    match fuel with
    | O => None
    | S fuel' =>
        let (container', pos') := createBubble container pos in
        initialize_from fuel' (i + 1) container' pos'
    end
  else Some (container, pos).

(** [initialize()]: the loop runs [ceil(count)] times when [count] is
    positive and not at all otherwise, which is the fuel it is given. *)
Definition initialize (container : Container) (pos : nat)
    : option (Container * nat) :=
  initialize_from (Z.to_nat (Qceiling (count cfg))) 0 container pos.

(** [constructor()]: an empty container, then [initialize()]. *)
Definition constructor (pos : nat) : option (Container * nat) :=
  initialize [] pos.

End WithRandom.

End BubbleManager.


(** ** Sample boxes and events *)

(** A box whose style has not been written yet. *)
Definition box_with (cur tgt : Orientation) (hovered : bool) : FloatingBox := {|
  current := cur;
  target := tgt;
  isHovered := hovered;
  style_transition := None;
  style_transform := None;
  glow_opacity := None;
  glow_mouse_x := None;
  glow_mouse_y := None
|}.

Definition orientation (rx ry tz : Qc) : Orientation :=
  {| rotateX := Fin rx; rotateY := Fin ry; translateZ := Fin tz |}.

(** A 300 by 300 box at (100, 50), as [CONFIG.box] sizes it. *)
Definition sample_rect : DOMRect :=
  {| left := qc 100 1; top := qc 50 1; width := qc 300 1; height := qc 300 1 |}.

(** A collapsed box: no width, the height kept. *)
Definition flat_rect : DOMRect :=
  {| left := qc 100 1; top := qc 50 1; width := 0; height := qc 300 1 |}.

Definition pointer_at (x y : Z) : MouseEvent :=
  {| clientX := qc x 1; clientY := qc y 1 |}.


(** ** Repeated frames of one field *)

(** The value of one field after [n] frames toward a fixed target:
    [x] becomes [lerp(x, end, factor)] on each frame. *)
Fixpoint lerp_iter (n : nat) (start end_ factor : number) : number :=
  match n with
  | O => start
  | S k => lerp (lerp_iter k start end_ factor) end_ factor
  end.

(** The same sequence on finite values. *)
Fixpoint lerpQ_iter (n : nat) (start end_ factor : Qc) : Qc :=
  match n with
  | O => start
  | S k => lerpQ (lerpQ_iter k start end_ factor) end_ factor
  end.

(** A natural number as a rational. *)
Definition Qc_of_nat (n : nat) : Qc := Q2Qc (inject_Z (Z.of_nat n)).


(** ** Tests on numbers and orientations *)

(** Equality of numbers as values ([NaN] counted equal to itself). *)
Definition number_eqb (a b : number) : bool :=
  match a, b with
  | Fin x, Fin y => Qceqb x y
  | Inf s, Inf t => Bool.eqb s t
  | NaN, NaN => true
  | _, _ => false
  end.

Definition orientation_eqb (a b : Orientation) : bool :=
  number_eqb (rotateX a) (rotateX b)
  && number_eqb (rotateY a) (rotateY b)
  && number_eqb (translateZ a) (translateZ b).

(** All three fields are finite numbers. *)
Definition finiteOrientation (o : Orientation) : bool :=
  isFinite (rotateX o) && isFinite (rotateY o) && isFinite (translateZ o).

(** [CONFIG.box] with [motionSpeed] at the upper end of its range. *)
Definition CONFIG_box_speed_1 : BoxConfig := {|
  rotationMax := qc 15 1;
  hoverHeight := qc 100 1;
  motionSpeed := 1;
  glowOpacity := qc 2 10;
  transitionDuration := "0.5s";
  transitionTiming := "ease-out";
  snapThreshold := qc 1 100
|}.


(** [CONFIG.bubbles] with other numbers, the palettes kept. *)
Definition bubbles_config (n sb sv db dv : Qc) : BubblesConfig := {|
  count := n;
  size_base := sb;
  size_variance := sv;
  colors := colors CONFIG_bubbles;
  gradients := gradients CONFIG_bubbles;
  duration_base := db;
  duration_variance := dv
|}.

(** A random source that always returns one half. *)
Definition always_half : nat -> Qc := fun _ => qc 1 2.




(** ** Bounds on the orientation *)







(** ** Consecutive frames *)

(** [n] calls of [updateFrame()] with no pointer event in between. *)
Definition frames (cfg : BoxConfig) (n : nat) (fb : FloatingBox) : FloatingBox :=
  Nat.iter n (FloatingBox.updateFrame cfg) fb.

(** The three fields scaled by one factor. *)
Definition scaled (c x y z : Qc) : Orientation :=
  {| rotateX := Fin (c * x); rotateY := Fin (c * y); translateZ := Fin (c * z) |}.

(** ** AnimationManager.getRandomRange *)

(** [static getRandomRange(min, max)] *)
Definition getRandomRange (random_stream : nat -> Qc) (min max : Qc)
    : BubbleManager.Rand Qc :=
  BubbleManager.bind (BubbleManager.Math_random random_stream)
    (fun r => BubbleManager.ret (r * (max - min) + min)).


(** ** config.js: generateCSSVariables *)

(** The values a configuration object holds: a string or number (kept as
    the text [setProperty] receives), [null], an array, a plain object
    with its entries in insertion order. *)
#[local] Set Warnings "-register-all".

Inductive JSValue : Type :=
| JSPrim (text : string)
| JSNull
| JSArray (items : list JSValue)
| JSObject (entries : list (string * JSValue)).

(** How a call of [setVar] ends: normally, or with the [TypeError] of
    [Object.entries(null)]. *)
Inductive Outcome : Type := Completed | TypeError.

(** The calls [root.style.setProperty(name, value)], oldest first. *)
Definition StyleCalls : Type := list (string * JSValue).

(** The key of index [i] in [Object.entries(array)]. *)
Definition index_key (i : nat) : string :=
  DecimalString.NilEmpty.string_of_uint (Nat.to_uint i).

Module CssVariables.

(** One round of the [for] loop of [setVar] in the first version of
    [config.js] ([typeof value === 'object'] holds for objects, arrays
    and [null]), with the recursive call [setVar(prefix + key + '-', value)]
    unfolded into the loops over the entries of an object and of an
    array. *)
Fixpoint setVar_entry (prefix key : string) (value : JSValue)
    (calls : StyleCalls) : StyleCalls * Outcome :=
  match value with
  | JSPrim _ => (calls ++ [(("--" ++ prefix ++ key)%string, value)], Completed)
  | JSNull => (calls, TypeError)
  | JSObject entries =>
      (fix loop (es : list (string * JSValue)) (cs : StyleCalls)
         : StyleCalls * Outcome :=
         match es with
         | [] => (cs, Completed)
         | (k, v) :: rest =>
             match setVar_entry (prefix ++ key ++ "-")%string k v cs with
             | (cs', Completed) => loop rest cs'
             | (cs', TypeError) => (cs', TypeError)
             end
         end) entries calls
  | JSArray items =>
      (fix loop (i : nat) (vs : list JSValue) (cs : StyleCalls)
         : StyleCalls * Outcome :=
         match vs with
         | [] => (cs, Completed)
         | v :: rest =>
             match setVar_entry (prefix ++ key ++ "-")%string (index_key i) v cs with
             | (cs', Completed) => loop (S i) rest cs'
             | (cs', TypeError) => (cs', TypeError)
             end
         end) O items calls
  end.

(** [setVar(prefix, obj)] for an object with the given entries. *)
Fixpoint setVar (prefix : string) (entries : list (string * JSValue))
    (calls : StyleCalls) : StyleCalls * Outcome :=
  match entries with
  | [] => (calls, Completed)
  | (k, v) :: rest =>
      match setVar_entry prefix k v calls with
      | (calls', Completed) => setVar prefix rest calls'
      | (calls', TypeError) => (calls', TypeError)
      end
  end.

(** [setVar(prefix, array)]: the entries of an array are its items under
    their indices, from [i] on. *)
Fixpoint setVar_items (prefix : string) (i : nat) (items : list JSValue)
    (calls : StyleCalls) : StyleCalls * Outcome :=
  match items with
  | [] => (calls, Completed)
  | v :: rest =>
      match setVar_entry prefix (index_key i) v calls with
      | (calls', Completed) => setVar_items prefix (S i) rest calls'
      | (calls', TypeError) => (calls', TypeError)
      end
  end.

(** [generateCSSVariables()] of the first version: [setVar('', CONFIG)]. *)
Definition generateCSSVariables (config : list (string * JSValue))
    : StyleCalls * Outcome :=
  setVar "" config [].

(** One round of the loop of [setVar] in the second version: the name is
    [prefix-key], or [key] under an empty prefix, and only a plain object
    is entered ([value && typeof value === 'object' && !Array.isArray(value)]);
    [null] and arrays are passed to [setProperty] as they are. *)
Fixpoint setVar2_entry (prefix key : string) (value : JSValue)
    (calls : StyleCalls) : StyleCalls :=
  let cssKey :=
    match prefix with
    | EmptyString => key
    | _ => (prefix ++ "-" ++ key)%string
    end in
  match value with
  | JSObject entries =>
      (fix loop (es : list (string * JSValue)) (cs : StyleCalls) : StyleCalls :=
         match es with
         | [] => cs
         | (k, v) :: rest => loop rest (setVar2_entry cssKey k v cs)
         end) entries calls
  | _ => calls ++ [(("--" ++ cssKey)%string, value)]
  end.

(** [setVar(prefix, obj)] of the second version. *)
Fixpoint setVar2 (prefix : string) (entries : list (string * JSValue))
    (calls : StyleCalls) : StyleCalls :=
  match entries with
  | [] => calls
  | (k, v) :: rest => setVar2 prefix rest (setVar2_entry prefix k v calls)
  end.

(** [generateCSSVariables()] of the second version, on the four sections
    of its [CONFIG]. *)
Definition generateCSSVariables2 (scene box1 box2 bubbles : list (string * JSValue))
    : StyleCalls :=
  setVar2 "bubbles" bubbles
    (setVar2 "box2" box2 (setVar2 "box1" box1 (setVar2 "scene" scene []))).

End CssVariables.

(** [null] occurs somewhere in the value. *)
Fixpoint contains_null (v : JSValue) : bool :=
  match v with
  | JSPrim _ => false
  | JSNull => true
  | JSArray items => existsb contains_null items
  | JSObject entries => existsb (fun kv => contains_null (snd kv)) entries
  end.

(** The value is built from plain objects and primitives only. *)
Fixpoint plain (v : JSValue) : bool :=
  match v with
  | JSPrim _ => true
  | JSNull => false
  | JSArray _ => false
  | JSObject entries => forallb (fun kv => plain (snd kv)) entries
  end.

(** The number of strings and numbers in the value. *)
Fixpoint count_prims (v : JSValue) : nat :=
  match v with
  | JSPrim _ => 1
  | JSNull => 0
  | JSArray items => list_sum (map count_prims items)
  | JSObject entries => list_sum (map (fun kv => count_prims (snd kv)) entries)
  end.

(** [leaf_at path v text]: following the keys of [path] from [v] (an
    index, in decimal, for an array) leads to the primitive [text]. *)
Inductive leaf_at : list string -> JSValue -> string -> Prop :=
| leaf_here : forall text, leaf_at [] (JSPrim text) text
| leaf_in_object : forall k v path text entries,
    In (k, v) entries -> leaf_at path v text ->
    leaf_at (k :: path) (JSObject entries) text
| leaf_in_array : forall i v path text items,
    nth_error items i = Some v -> leaf_at path v text ->
    leaf_at (index_key i :: path) (JSArray items) text.

(** [CONFIG] of the first version of [config.js]. *)
Definition CONFIG_object : list (string * JSValue) :=
  [("box",
    JSObject
      [("width", JSPrim "300px"); ("height", JSPrim "300px");
       ("borderRadius", JSPrim "30px"); ("rotationMax", JSPrim "15");
       ("hoverHeight", JSPrim "100"); ("motionSpeed", JSPrim "0.25");
       ("background", JSPrim "rgba(0, 0, 0, 0.2)"); ("blur", JSPrim "20px");
       ("saturation", JSPrim "180%");
       ("borderColor", JSPrim "rgba(255, 255, 255, 0.1)");
       ("glowOpacity", JSPrim "0.2"); ("glowBlur", JSPrim "50px");
       ("glowColor", JSPrim "rgba(255, 255, 255, 0.3)");
       ("shadowBlur", JSPrim "20px"); ("shadowColor", JSPrim "rgba(0, 0, 0, 0.3)");
       ("transitionDuration", JSPrim "0.5s"); ("transitionTiming", JSPrim "ease-out");
       ("snapThreshold", JSPrim "0.01")]);
   ("bubbles",
    JSObject
      [("count", JSPrim "50");
       ("size", JSObject [("base", JSPrim "50"); ("variance", JSPrim "30")]);
       ("colors", JSArray (map JSPrim (colors CONFIG_bubbles)));
       ("gradients", JSArray (map JSPrim (gradients CONFIG_bubbles)));
       ("animation",
        JSObject
          [("duration",
            JSObject [("base", JSPrim "12"); ("variance", JSPrim "4")])])]);
   ("scene",
    JSObject
      [("perspective", JSPrim "1000px"); ("padding", JSPrim "50px");
       ("containerGap", JSPrim "40px")])]%string.


(** ** The same code on binary64 numbers *)

(** The definitions above compute with exact rationals.  The module below
    is the same source text on IEEE 754 binary64 numbers, the numbers
    JavaScript computes with (round to nearest, ties to even, signed
    zeros, subnormals, overflow to infinity).  It is used to evaluate the
    code at given inputs, where rounding decides the result.  Of
    [FloatingBox] it keeps [state] and [isHovered]: the style properties
    are written and never read, so they do not reach [current] or
    [target].  Of [createBubble()] it keeps the numbers, each from the
    draw the source takes it from; the two draws of [getRandomColor()]
    reach no number. *)

#[local] Set Warnings "-inexact-float".

Module Double.

(** [static lerp(start, end, factor)] *)
Definition lerp (start end_ factor : float) : float :=
  (start + (end_ - start) * factor)%float.

(** [static getRandomRange(min, max)], [r] being what [Math.random()]
    returns. *)
Definition getRandomRange (r min max : float) : float :=
  (r * (max - min) + min)%float.

Record Orientation : Type := {
  rotateX : float;
  rotateY : float;
  translateZ : float
}.

Record BoxConfig : Type := {
  rotationMax : float;
  hoverHeight : float;
  motionSpeed : float;
  snapThreshold : float
}.

Record MouseEvent : Type := { clientX : float; clientY : float }.

Record DOMRect : Type := { left : float; top : float; width : float; height : float }.

Record FloatingBox : Type := {
  current : Orientation;
  target : Orientation;
  isHovered : bool
}.

(** [constructor(element)] *)
Definition constructor : FloatingBox := {|
  current := {| rotateX := 0; rotateY := 0; translateZ := 0 |};
  target := {| rotateX := 0; rotateY := 0; translateZ := 0 |};
  isHovered := false
|}.

(** [(e.clientX - rect.left) / rect.width * 2 - 1] *)
Definition normX (e : MouseEvent) (rect : DOMRect) : float :=
  ((clientX e - left rect) / width rect * 2 - 1)%float.

(** [(e.clientY - rect.top) / rect.height * 2 - 1] *)
Definition normY (e : MouseEvent) (rect : DOMRect) : float :=
  ((clientY e - top rect) / height rect * 2 - 1)%float.

(** [handleMouseMove(e)] *)
Definition handleMouseMove (cfg : BoxConfig) (e : MouseEvent) (rect : DOMRect)
    (fb : FloatingBox) : FloatingBox :=
  if negb (isHovered fb) then fb
  else
    let x := normX e rect in
    let y := normY e rect in
    {| current := current fb;
       target := {| rotateX := ((- y) * rotationMax cfg)%float;
                    rotateY := (x * rotationMax cfg)%float;
                    translateZ := hoverHeight cfg |};
       isHovered := isHovered fb |}.

(** [handleMouseEnter()] *)
Definition handleMouseEnter (fb : FloatingBox) : FloatingBox :=
  {| current := current fb; target := target fb; isHovered := true |}.

(** [handleMouseLeave()] *)
Definition handleMouseLeave (fb : FloatingBox) : FloatingBox :=
  {| current := current fb;
     target := {| rotateX := 0; rotateY := 0; translateZ := 0 |};
     isHovered := false |}.

(** [isNearRest()] *)
Definition isNearRest (cfg : BoxConfig) (cur : Orientation) : bool :=
  (PrimFloat.abs (rotateX cur) <? snapThreshold cfg)%float
  && (PrimFloat.abs (rotateY cur) <? snapThreshold cfg)%float
  && (PrimFloat.abs (translateZ cur) <? snapThreshold cfg)%float.

(** [updateTransforms()] *)
Definition updateTransforms (cfg : BoxConfig) (fb : FloatingBox) : FloatingBox :=
  let speed := motionSpeed cfg in
  let cur :=
    {| rotateX := lerp (rotateX (current fb)) (rotateX (target fb)) speed;
       rotateY := lerp (rotateY (current fb)) (rotateY (target fb)) speed;
       translateZ := lerp (translateZ (current fb)) (translateZ (target fb)) speed |} in
  let cur :=
    if negb (isHovered fb) && isNearRest cfg cur
    then {| rotateX := 0; rotateY := 0; translateZ := 0 |}
    else cur in
  {| current := cur; target := target fb; isHovered := isHovered fb |}.

Inductive Event : Type :=
| MouseEnter
| MouseMove (e : MouseEvent) (rect : DOMRect)
| MouseLeave
| Frame.

Definition step (cfg : BoxConfig) (fb : FloatingBox) (ev : Event) : FloatingBox :=
  match ev with
  | MouseEnter => handleMouseEnter fb
  | MouseMove e rect => handleMouseMove cfg e rect fb
  | MouseLeave => handleMouseLeave fb
  | Frame => updateTransforms cfg fb
  end.

Definition run (cfg : BoxConfig) (evs : list Event) : FloatingBox :=
  fold_left (step cfg) evs constructor.

Record BubblesConfig : Type := {
  size_base : float;
  size_variance : float;
  duration_base : float;
  duration_variance : float
}.




(** [CONFIG.box] as shipped. *)
Definition box_shipped : BoxConfig :=
  {| rotationMax := 15; hoverHeight := 100; motionSpeed := 0.25;
     snapThreshold := 0.01 |}.

(** A 300 by 300 box at (100, 50). *)
Definition sample_rect : DOMRect :=
  {| left := 100; top := 50; width := 300; height := 300 |}.


End Double.

(** A random source that returns one half for the draws 16 to 23 and zero
    for all others. *)
Definition half_in_third_window : nat -> Qc :=
  fun p => if (16 <=? p)%nat && (p <? 24)%nat then qc 1 2 else 0.


(** * Properties *)

Import FloatingBox.

(** ** Comparisons on canonical rationals *)

Lemma Qcltb_lt (a b : Qc) : Qcltb a b = true <-> a < b.
Proof.
  unfold Qcltb. rewrite Qclt_alt.
  destruct (a ?= b); split; congruence.
Qed.


Lemma Qceqb_eq (a b : Qc) : Qceqb a b = true <-> a = b.
Proof.
  unfold Qceqb. rewrite Qceq_alt.
  destruct (a ?= b); split; congruence.
Qed.

Lemma Qceqb_refl (a : Qc) : Qceqb a a = true.
Proof. now apply Qceqb_eq. Qed.

Lemma Qceqb_neq (a b : Qc) : a <> b -> Qceqb a b = false.
Proof.
  intros Hab. destruct (Qceqb a b) eqn:E; [|reflexivity].
  now apply Qceqb_eq in E.
Qed.

(** Order and equality goals on [Qc] are sent to [Q], where [lra] and
    [nra] work. *)
Ltac qc_unfold :=
  unfold lerpQ, qc, Qcle, Qclt, Qcdiv, Qcinv, Qcminus, Qcplus, Qcmult, Qcopp, Q2Qc in *;
  cbn [this] in *;
  rewrite ?Qred_correct in *.

Ltac qc_eq := apply Qc_is_canon; qc_unfold.

Lemma Qc_neq0_this (a : Qc) : a <> 0 -> ~ (this a == 0)%Q.
Proof. intros Ha H. apply Ha. apply Qc_is_canon. exact H. Qed.

(** Closed comparisons are decided by evaluation. *)
Ltac qc_closed :=
  first [ reflexivity
        | apply Qc_is_canon; vm_compute; reflexivity
        | let H := fresh in
          intros H; apply (f_equal this) in H; vm_compute in H; discriminate H
        | vm_compute; first [ reflexivity | discriminate | congruence ] ].


(** ** Deciding equality of orientations *)

Lemma number_eqb_eq (a b : number) : number_eqb a b = true -> a = b.
Proof.
  destruct a as [x|s|], b as [y|t|]; cbn [number_eqb]; try discriminate.
  - intros H. apply Qceqb_eq in H. now subst.
  - intros H. apply Bool.eqb_prop in H. now subst.
  - reflexivity.
Qed.

Lemma orientation_eqb_eq (a b : Orientation) : orientation_eqb a b = true -> a = b.
Proof.
  unfold orientation_eqb. rewrite !andb_true_iff. intros ((Hx & Hy) & Hz).
  apply number_eqb_eq in Hx, Hy, Hz. destruct a, b. cbn in *. congruence.
Qed.

(** ** The frame update *)

Lemma interpolate_prop (speed : number) (tgt cur : Orientation) (prop : PropName) :
  getProp prop (interpolate speed tgt cur)
  = lerp (getProp prop cur) (getProp prop tgt) speed.
Proof. destruct prop; reflexivity. Qed.

Lemma orientation_ext (a b : Orientation) :
  (forall prop, getProp prop a = getProp prop b) -> a = b.
Proof.
  intros H. destruct a, b.
  pose proof (H P_rotateX) as Hx. pose proof (H P_rotateY) as Hy.
  pose proof (H P_translateZ) as Hz. cbn in Hx, Hy, Hz. congruence.
Qed.

Lemma isNearRest_spec (cfg : BoxConfig) (cur : Orientation) :
  isNearRest cfg cur = true
  <-> forall prop, lt (Math_abs (getProp prop cur)) (Fin (snapThreshold cfg)) = true.
Proof.
  unfold isNearRest, props. cbn [forallb]. rewrite !andb_true_iff. split.
  - intros (Hx & Hy & Hz & _) []; assumption.
  - intros H. repeat split; apply H.
Qed.

(** C1.  On every frame each of [rotateX], [rotateY], [translateZ] of
    [current] is replaced by
    [current[f] + (target[f] - current[f]) * motionSpeed], each field from
    its own old value and target only; the frame's [current] is what the
    rest test makes of that interpolated value, whether the box is
    hovered or not; [target] and the mode are not touched. *)
Theorem C1_tick_interpolates_every_field (cfg : BoxConfig) (fb : FloatingBox) :
  let stepped := interpolate (Fin (motionSpeed cfg)) (target fb) (current fb) in
  (forall prop,
      getProp prop stepped
      = add (getProp prop (current fb))
            (mul (sub (getProp prop (target fb)) (getProp prop (current fb)))
                 (Fin (motionSpeed cfg))))
  /\ current (updateTransforms cfg fb) = restSnap cfg (isHovered fb) stepped
  /\ restSnap cfg true stepped = stepped
  /\ target (updateTransforms cfg fb) = target fb
  /\ isHovered (updateTransforms cfg fb) = isHovered fb.
Proof.
  cbv zeta. split; [|repeat split].
  intros prop. rewrite interpolate_prop. reflexivity.
Qed.

(** One frame of a hovered box at rest whose target is the top-left
    corner of the shipped configuration: a quarter of the way. *)
Example frame_toward_corner :
  current (updateTransforms CONFIG_box
             (box_with zeroOrientation
                (orientation (qc 15 1) (qc (-15) 1) (qc 100 1)) true))
  = orientation (qc 375 100) (qc (-375) 100) (qc 25 1).
Proof. apply orientation_eqb_eq. vm_compute. reflexivity. Qed.

(** C2.  In a frame of a box that is not hovered, if after the
    interpolation all three fields of [current] are below [snapThreshold]
    in absolute value, the frame leaves [current] at exactly
    [{rotateX: 0, rotateY: 0, translateZ: 0}]; in a frame of a hovered box
    [current] is the interpolated value, whatever its size. *)
Theorem C2_rest_snap_is_exact (cfg : BoxConfig) (fb : FloatingBox) :
  let stepped := interpolate (Fin (motionSpeed cfg)) (target fb) (current fb) in
  (isHovered fb = false ->
   (forall prop,
       lt (Math_abs (getProp prop stepped)) (Fin (snapThreshold cfg)) = true) ->
   current (updateTransforms cfg fb)
   = {| rotateX := Fin 0; rotateY := Fin 0; translateZ := Fin 0 |})
  /\ (isHovered fb = true -> current (updateTransforms cfg fb) = stepped).
Proof.
  cbv zeta. split.
  - intros Hidle Hnear. apply isNearRest_spec in Hnear.
    unfold updateTransforms. cbn [current]. unfold restSnap.
    rewrite Hidle, Hnear. reflexivity.
  - intros Hhov. unfold updateTransforms. cbn [current]. unfold restSnap.
    rewrite Hhov. reflexivity.
Qed.

(** A box at rest distance 1/1000 snaps; the same box, hovered, does not. *)
Lemma C2_rest_snap_witness :
  current (updateTransforms CONFIG_box
             (box_with (orientation (qc 1 1000) 0 0) zeroOrientation false))
  = {| rotateX := Fin 0; rotateY := Fin 0; translateZ := Fin 0 |}
  /\ current (updateTransforms CONFIG_box
                (box_with (orientation (qc 1 1000) 0 0) zeroOrientation true))
     = interpolate (Fin (motionSpeed CONFIG_box)) zeroOrientation
         (orientation (qc 1 1000) 0 0).
Proof.
  split.
  - apply (proj1 (C2_rest_snap_is_exact CONFIG_box
                    (box_with (orientation (qc 1 1000) 0 0) zeroOrientation false))).
    + reflexivity.
    + intros []; vm_compute; reflexivity.
  - apply (proj2 (C2_rest_snap_is_exact CONFIG_box
                    (box_with (orientation (qc 1 1000) 0 0) zeroOrientation true))).
    reflexivity.
Defined.

(** ** The controller's modes *)

Lemma reachable_run (cfg : BoxConfig) (evs : list Event) :
  reachable cfg (run cfg evs).
Proof.
  unfold run. induction evs as [|ev evs IH] using rev_ind.
  - apply reach_constructor.
  - rewrite fold_left_app. cbn [fold_left].
    now apply reach_step.
Qed.

Lemma reachable_by_weaken (cfg : BoxConfig) (adm : FloatingBox -> Event -> Prop)
    (fb : FloatingBox) :
  reachable_by cfg adm fb -> reachable cfg fb.
Proof.
  induction 1 as [|fb ev _ IH _].
  - apply reach_constructor.
  - now apply reach_step.
Qed.

(** One event keeps "not hovered implies zero target". *)
Lemma step_keeps_idle_target (cfg : BoxConfig) (fb : FloatingBox) (ev : Event) :
  (isHovered fb = false ->
   target fb = {| rotateX := Fin 0; rotateY := Fin 0; translateZ := Fin 0 |}) ->
  isHovered (step cfg fb ev) = false ->
  target (step cfg fb ev)
  = {| rotateX := Fin 0; rotateY := Fin 0; translateZ := Fin 0 |}.
Proof.
  intros Hinv. destruct ev as [|e rect| |]; cbn [step].
  - discriminate.
  - unfold handleMouseMove. destruct (isHovered fb) eqn:Hhov; cbn [negb].
    + discriminate.
    + intros _. now apply Hinv.
  - reflexivity.
  - exact Hinv.
Qed.

(** C8.  In every state the controller reaches from its constructor by
    pointer-enter, pointer-move, pointer-leave and frame events, a box
    that is not hovered has [target] equal to
    [{rotateX: 0, rotateY: 0, translateZ: 0}]. *)
Theorem C8_idle_target_is_zero (cfg : BoxConfig) (fb : FloatingBox) :
  reachable cfg fb ->
  isHovered fb = false ->
  target fb = {| rotateX := Fin 0; rotateY := Fin 0; translateZ := Fin 0 |}.
Proof.
  intros Hreach. induction Hreach as [|fb ev _ IH _].
  - reflexivity.
  - now apply step_keeps_idle_target.
Qed.

(** Enter, move to a corner, leave, one frame: the box is idle again and
    its target is zero. *)
Lemma C8_idle_target_witness :
  target (run CONFIG_box
            [MouseEnter; MouseMove (pointer_at 400 350) sample_rect;
             MouseLeave; Frame])
  = {| rotateX := Fin 0; rotateY := Fin 0; translateZ := Fin 0 |}.
Proof.
  apply (C8_idle_target_is_zero CONFIG_box).
  - apply reachable_run.
  - reflexivity.
Defined.

(** C9.  A pointer-move that arrives while the box is not hovered changes
    nothing: [current], [target], the glow's focal point and every other
    part of the box are as before, wherever the pointer is and whatever
    the bounding box. *)
Theorem C9_move_while_idle_is_noop (cfg : BoxConfig) (e : MouseEvent)
    (rect : DOMRect) (fb : FloatingBox) :
  isHovered fb = false ->
  handleMouseMove cfg e rect fb = fb
  /\ current (handleMouseMove cfg e rect fb) = current fb
  /\ target (handleMouseMove cfg e rect fb) = target fb
  /\ glow_mouse_x (handleMouseMove cfg e rect fb) = glow_mouse_x fb
  /\ glow_mouse_y (handleMouseMove cfg e rect fb) = glow_mouse_y fb.
Proof.
  intros Hidle. unfold handleMouseMove. rewrite Hidle. cbn [negb].
  repeat split.
Qed.

Lemma C9_move_while_idle_witness :
  handleMouseMove CONFIG_box (pointer_at 400 350) sample_rect
    (box_with (orientation (qc 3 1) (qc (-2) 1) (qc 40 1)) zeroOrientation false)
  = box_with (orientation (qc 3 1) (qc (-2) 1) (qc 40 1)) zeroOrientation false.
Proof.
  apply (C9_move_while_idle_is_noop CONFIG_box (pointer_at 400 350) sample_rect).
  reflexivity.
Defined.

(** ** Pointer moves *)

Lemma mul_not_finite_l (a b : number) : isFinite a = false -> isFinite (mul a b) = false.
Proof.
  destruct a as [x|s|]; [discriminate| |reflexivity]; intros _.
  destruct b as [y|t|]; cbn [mul]; [destruct (y ?= 0)| |]; reflexivity.
Qed.

Lemma neg_not_finite (a : number) : isFinite a = false -> isFinite (neg a) = false.
Proof. destruct a; [discriminate|reflexivity|reflexivity]. Qed.

Lemma sub_fin_not_finite (a : number) (q : Qc) :
  isFinite a = false -> isFinite (sub a (Fin q)) = false.
Proof. destruct a; [discriminate|reflexivity|reflexivity]. Qed.

Lemma toFixed2_not_finite (a : number) :
  isFinite a = false -> isFinite (toFixed2 a) = false.
Proof. destruct a; [discriminate|reflexivity|reflexivity]. Qed.

Lemma div_by_zero_not_finite (a : Qc) : isFinite (div (Fin a) (Fin 0)) = false.
Proof.
  cbn [div]. rewrite Qceqb_refl. destruct (a ?= 0); reflexivity.
Qed.

Lemma fractionX_zero_width (e : MouseEvent) (rect : DOMRect) :
  width rect = 0 -> isFinite (fractionX e rect) = false.
Proof.
  intros Hw. unfold fractionX. rewrite Hw. cbn [sub neg add].
  apply div_by_zero_not_finite.
Qed.

Lemma fractionY_zero_height (e : MouseEvent) (rect : DOMRect) :
  height rect = 0 -> isFinite (fractionY e rect) = false.
Proof.
  intros Hh. unfold fractionY. rewrite Hh. cbn [sub neg add].
  apply div_by_zero_not_finite.
Qed.

Lemma fractionX_finite (e : MouseEvent) (rect : DOMRect) :
  width rect <> 0 ->
  fractionX e rect = Fin ((clientX e - left rect) / width rect).
Proof.
  intros Hw. unfold fractionX. cbn [sub neg add div].
  now rewrite (Qceqb_neq _ _ Hw).
Qed.

Lemma fractionY_finite (e : MouseEvent) (rect : DOMRect) :
  height rect <> 0 ->
  fractionY e rect = Fin ((clientY e - top rect) / height rect).
Proof.
  intros Hh. unfold fractionY. cbn [sub neg add div].
  now rewrite (Qceqb_neq _ _ Hh).
Qed.

Lemma target_handleMouseMove (cfg : BoxConfig) (e : MouseEvent) (rect : DOMRect)
    (fb : FloatingBox) :
  isHovered fb = true ->
  target (handleMouseMove cfg e rect fb)
  = {| rotateX := mul (neg (normY e rect)) (Fin (rotationMax cfg));
       rotateY := mul (normX e rect) (Fin (rotationMax cfg));
       translateZ := Fin (hoverHeight cfg) |}.
Proof.
  intros Hhov. unfold handleMouseMove. rewrite Hhov. reflexivity.
Qed.

(** C3, as the code has it.  [handleMouseMove] has no test on the
    bounding box.  A move over a box of zero width or zero height is
    ignored only when the box is not hovered, like any other move.  When
    the box is hovered, [target] is overwritten as for any other move:
    [translateZ] is [hoverHeight], and [rotateY] (zero width) or [rotateX]
    (zero height) is not finite; the glow's focal point on that axis is
    overwritten with a non-finite value too. *)
Theorem C3_degenerate_rect_overwrites_target (cfg : BoxConfig) (e : MouseEvent)
    (rect : DOMRect) (fb : FloatingBox) :
  (isHovered fb = false -> handleMouseMove cfg e rect fb = fb)
  /\ (isHovered fb = true -> width rect = 0 ->
      translateZ (target (handleMouseMove cfg e rect fb)) = Fin (hoverHeight cfg)
      /\ isFinite (rotateY (target (handleMouseMove cfg e rect fb))) = false
      /\ exists v, glow_mouse_x (handleMouseMove cfg e rect fb) = Some v
                   /\ isFinite v = false)
  /\ (isHovered fb = true -> height rect = 0 ->
      translateZ (target (handleMouseMove cfg e rect fb)) = Fin (hoverHeight cfg)
      /\ isFinite (rotateX (target (handleMouseMove cfg e rect fb))) = false
      /\ exists v, glow_mouse_y (handleMouseMove cfg e rect fb) = Some v
                   /\ isFinite v = false).
Proof.
  split; [|split].
  - intros Hidle. unfold handleMouseMove. now rewrite Hidle.
  - intros Hhov Hw. pose proof (fractionX_zero_width e rect Hw) as Hx.
    rewrite (target_handleMouseMove cfg e rect fb Hhov). cbn [translateZ rotateY].
    split; [reflexivity|split].
    + unfold normX. apply mul_not_finite_l, sub_fin_not_finite, mul_not_finite_l, Hx.
    + unfold handleMouseMove. rewrite Hhov. cbn [negb updateGlowPosition glow_mouse_x].
      eexists. split; [reflexivity|].
      apply toFixed2_not_finite, mul_not_finite_l, Hx.
  - intros Hhov Hh. pose proof (fractionY_zero_height e rect Hh) as Hy.
    rewrite (target_handleMouseMove cfg e rect fb Hhov). cbn [translateZ rotateX].
    split; [reflexivity|split].
    + unfold normY.
      apply mul_not_finite_l, neg_not_finite, sub_fin_not_finite, mul_not_finite_l, Hy.
    + unfold handleMouseMove. rewrite Hhov. cbn [negb updateGlowPosition glow_mouse_y].
      eexists. split; [reflexivity|].
      apply toFixed2_not_finite, mul_not_finite_l, Hy.
Qed.

(** The shipped configuration, a hovered box, a collapsed bounding box. *)
Lemma C3_degenerate_rect_witness :
  translateZ (target (handleMouseMove CONFIG_box (pointer_at 130 200) flat_rect
                        (handleMouseEnter CONFIG_box constructor)))
  = Fin (hoverHeight CONFIG_box)
  /\ isFinite (rotateY (target (handleMouseMove CONFIG_box (pointer_at 130 200)
                                  flat_rect
                                  (handleMouseEnter CONFIG_box constructor))))
     = false.
Proof.
  destruct (proj1 (proj2 (C3_degenerate_rect_overwrites_target CONFIG_box
                            (pointer_at 130 200) flat_rect
                            (handleMouseEnter CONFIG_box constructor)))
              eq_refl eq_refl) as (Hz & Hy & _).
  exact (conj Hz Hy).
Defined.

(** C3, as stated, fails.  A box with the shipped configuration is
    entered, so it is hovered and its target is still zero; a move then
    arrives over a bounding box of zero width, the pointer 30 to the right
    of its left edge.  The update is not skipped: [target] changes, its
    [rotateY] is [Infinity], and the focal point of the glow, unset
    before, is written with [Infinity]. *)
Lemma C3_skip_on_degenerate_rect_fails :
  let fb := handleMouseEnter CONFIG_box constructor in
  let fb' := handleMouseMove CONFIG_box (pointer_at 130 200) flat_rect fb in
  width flat_rect = 0
  /\ isHovered fb = true
  /\ target fb' <> target fb
  /\ rotateY (target fb) = Fin 0
  /\ rotateY (target fb') = Infinity
  /\ glow_mouse_x fb = None
  /\ glow_mouse_x fb' = Some Infinity.
Proof.
  cbv zeta. repeat split.
  intros Heq. apply (f_equal rotateY) in Heq. vm_compute in Heq. discriminate.
Qed.

Lemma orientation_eq (a b c a' b' c' : Qc) :
  a = a' -> b = b' -> c = c' ->
  {| rotateX := Fin a; rotateY := Fin b; translateZ := Fin c |}
  = {| rotateX := Fin a'; rotateY := Fin b'; translateZ := Fin c' |}.
Proof. now intros -> -> ->. Qed.

Lemma target_of_fractions (cfg : BoxConfig) (e : MouseEvent) (rect : DOMRect)
    (fb : FloatingBox) (fx fy : Qc) :
  isHovered fb = true ->
  fractionX e rect = Fin fx ->
  fractionY e rect = Fin fy ->
  target (handleMouseMove cfg e rect fb)
  = {| rotateX := Fin (- (qc 2 1 * fy - 1) * rotationMax cfg);
       rotateY := Fin ((qc 2 1 * fx - 1) * rotationMax cfg);
       translateZ := Fin (hoverHeight cfg) |}.
Proof.
  intros Hhov Hx Hy. rewrite (target_handleMouseMove cfg e rect fb Hhov).
  unfold normX, normY. rewrite Hx, Hy. cbn [mul sub add neg].
  apply orientation_eq; [| |reflexivity]; unfold qc; qc_eq; ring.
Qed.

(** C4.  A pointer-move handled while the box is hovered, with the
    pointer at the fractions [fx], [fy] of the bounding box (in [[0,1]] or
    not) and [normX = 2*fx - 1], [normY = 2*fy - 1], sets [target] to
    [{rotateX: -normY * rotationMax, rotateY: normX * rotationMax,
      translateZ: hoverHeight}].  A pointer at the center of the box gives
    [{0, 0, hoverHeight}], one at its top-left corner
    [{rotationMax, -rotationMax, hoverHeight}]. *)
Theorem C4_pointer_move_sets_target (cfg : BoxConfig) (e : MouseEvent)
    (rect : DOMRect) (fb : FloatingBox) :
  isHovered fb = true ->
  (forall fx fy : Qc,
      fractionX e rect = Fin fx ->
      fractionY e rect = Fin fy ->
      target (handleMouseMove cfg e rect fb)
      = {| rotateX := Fin (- (qc 2 1 * fy - 1) * rotationMax cfg);
           rotateY := Fin ((qc 2 1 * fx - 1) * rotationMax cfg);
           translateZ := Fin (hoverHeight cfg) |})
  /\ (width rect <> 0 -> height rect <> 0 ->
      clientX e = left rect + width rect / qc 2 1 ->
      clientY e = top rect + height rect / qc 2 1 ->
      fractionX e rect = Fin (qc 1 2) /\ fractionY e rect = Fin (qc 1 2)
      /\ target (handleMouseMove cfg e rect fb)
         = {| rotateX := Fin 0; rotateY := Fin 0;
              translateZ := Fin (hoverHeight cfg) |})
  /\ (width rect <> 0 -> height rect <> 0 ->
      clientX e = left rect ->
      clientY e = top rect ->
      fractionX e rect = Fin 0 /\ fractionY e rect = Fin 0
      /\ target (handleMouseMove cfg e rect fb)
         = {| rotateX := Fin (rotationMax cfg);
              rotateY := Fin (- rotationMax cfg);
              translateZ := Fin (hoverHeight cfg) |}).
Proof.
  intros Hhov. split; [|split].
  - intros fx fy. now apply target_of_fractions.
  - intros Hw Hh Hcx Hcy.
    assert (Hfx : fractionX e rect = Fin (qc 1 2)).
    { rewrite (fractionX_finite e rect Hw), Hcx. f_equal.
      apply Qc_neq0_this in Hw. qc_eq. now field. }
    assert (Hfy : fractionY e rect = Fin (qc 1 2)).
    { rewrite (fractionY_finite e rect Hh), Hcy. f_equal.
      apply Qc_neq0_this in Hh. qc_eq. now field. }
    split; [exact Hfx|split; [exact Hfy|]].
    rewrite (target_of_fractions cfg e rect fb _ _ Hhov Hfx Hfy).
    apply orientation_eq; [| |reflexivity]; unfold qc; qc_eq; ring.
  - intros Hw Hh Hcx Hcy.
    assert (Hfx : fractionX e rect = Fin 0).
    { rewrite (fractionX_finite e rect Hw), Hcx. f_equal. now field. }
    assert (Hfy : fractionY e rect = Fin 0).
    { rewrite (fractionY_finite e rect Hh), Hcy. f_equal. now field. }
    split; [exact Hfx|split; [exact Hfy|]].
    rewrite (target_of_fractions cfg e rect fb _ _ Hhov Hfx Hfy).
    apply orientation_eq; [| |reflexivity]; ring.
Qed.

(** The shipped configuration and a 300 by 300 box at (100, 50): its
    center is (250, 200), its top-left corner (100, 50). *)
Lemma C4_pointer_move_witness :
  target (handleMouseMove CONFIG_box (pointer_at 250 200) sample_rect
            (handleMouseEnter CONFIG_box constructor))
  = {| rotateX := Fin 0; rotateY := Fin 0;
       translateZ := Fin (hoverHeight CONFIG_box) |}
  /\ target (handleMouseMove CONFIG_box (pointer_at 100 50) sample_rect
               (handleMouseEnter CONFIG_box constructor))
     = {| rotateX := Fin (rotationMax CONFIG_box);
          rotateY := Fin (- rotationMax CONFIG_box);
          translateZ := Fin (hoverHeight CONFIG_box) |}.
Proof.
  split.
  - apply (proj1 (proj2 (C4_pointer_move_sets_target CONFIG_box (pointer_at 250 200)
                           sample_rect (handleMouseEnter CONFIG_box constructor)
                           eq_refl))); qc_closed.
  - apply (proj2 (proj2 (C4_pointer_move_sets_target CONFIG_box (pointer_at 100 50)
                           sample_rect (handleMouseEnter CONFIG_box constructor)
                           eq_refl))); qc_closed.
Defined.


(** ** Convergence of the interpolation *)

Lemma lerp_Fin (x e f : Qc) : lerp (Fin x) (Fin e) (Fin f) = Fin (lerpQ x e f).
Proof. reflexivity. Qed.

Lemma lerp_iter_Fin (n : nat) (s e f : Qc) :
  lerp_iter n (Fin s) (Fin e) (Fin f) = Fin (lerpQ_iter n s e f).
Proof.
  induction n as [|n IH]; [reflexivity|].
  cbn [lerp_iter lerpQ_iter]. rewrite IH. apply lerp_Fin.
Qed.

(** After [n] frames the distance to the target is the initial one times
    [(1 - f)^n]. *)
Lemma lerpQ_iter_closed (n : nat) (s e f : Qc) :
  lerpQ_iter n s e f - e = (1 - f) ^ n * (s - e).
Proof.
  induction n as [|n IH]; cbn [lerpQ_iter Qcpower].
  - ring.
  - unfold lerpQ.
    replace (lerpQ_iter n s e f + (e - lerpQ_iter n s e f) * f - e)
      with ((1 - f) * (lerpQ_iter n s e f - e)) by ring.
    rewrite IH. ring.
Qed.

Section Contraction.

Variable f : Qc.
Hypothesis f_pos : 0 < f.
Hypothesis f_lt_1 : f < 1.

Lemma contraction_pos (n : nat) : 0 < (1 - f) ^ n.
Proof.
  induction n as [|n IH]; cbn [Qcpower].
  - reflexivity.
  - revert IH. generalize ((1 - f) ^ n). intros c IH. qc_unfold. nra.
Qed.

Lemma contraction_decreases (n : nat) : (1 - f) ^ S n < (1 - f) ^ n.
Proof.
  pose proof (contraction_pos n) as Hc. cbn [Qcpower].
  revert Hc. generalize ((1 - f) ^ n). intros c Hc. qc_unfold. nra.
Qed.

Lemma Qc_of_nat_S (n : nat) : Qc_of_nat (S n) = Qc_of_nat n + 1.
Proof.
  unfold Qc_of_nat. qc_eq. rewrite Nat2Z.inj_succ. unfold Z.succ.
  rewrite inject_Z_plus. reflexivity.
Qed.

Lemma Qc_of_nat_nonneg (n : nat) : 0 <= Qc_of_nat n.
Proof.
  unfold Qc_of_nat. qc_unfold.
  change 0%Q with (inject_Z 0). rewrite <- Zle_Qle. lia.
Qed.

Lemma Qc_of_nat_le (n m : nat) : (n <= m)%nat -> Qc_of_nat n <= Qc_of_nat m.
Proof.
  intros Hnm. unfold Qc_of_nat. qc_unfold. rewrite <- Zle_Qle. lia.
Qed.

(** Bernoulli's inequality, in the form used here. *)
Lemma contraction_bound (n : nat) : (1 - f) ^ n * (1 + Qc_of_nat n * f) <= 1.
Proof.
  induction n as [|n IH].
  - cbn [Qcpower]. unfold Qc_of_nat. qc_unfold. cbn [Z.of_nat].
    change (inject_Z 0) with 0%Q. lra.
  - pose proof (contraction_pos n) as Hc.
    pose proof (Qc_of_nat_nonneg n) as Hn.
    rewrite Qc_of_nat_S. cbn [Qcpower].
    revert IH Hc Hn. generalize ((1 - f) ^ n) (Qc_of_nat n). intros c m IH Hc Hn.
    qc_unfold.
    assert (Hsq : (0 <= this c * ((this m + 1) * (this f * this f)))%Q).
    { apply Qmult_le_0_compat; [lra|].
      apply Qmult_le_0_compat; [lra|nra]. }
    nra.
Qed.

End Contraction.

Lemma archimedean_step (d eps f : Q) :
  (0 < eps)%Q -> (0 < f)%Q ->
  exists N : nat, forall n : nat, (N <= n)%nat ->
    (d < inject_Z (Z.of_nat n) * (eps * f))%Q.
Proof.
  intros Heps Hf.
  assert (Hef : (0 < eps * f)%Q) by nra.
  set (q := (d / (eps * f))%Q).
  exists (Z.to_nat (Qfloor q + 1)). intros n Hn.
  assert (Hq : (q < inject_Z (Z.of_nat n))%Q).
  { apply Qlt_le_trans with (inject_Z (Qfloor q + 1)); [apply Qlt_floor|].
    rewrite <- Zle_Qle. lia. }
  assert (Hd : (d == q * (eps * f))%Q).
  { unfold q. field. lra. }
  rewrite Hd. apply Qmult_lt_compat_r; assumption.
Qed.

(** C5.  For a factor [f] with [0 < f < 1] and [start <> end], in exact
    arithmetic, the sequence [x_0 = start], [x_(n+1) = x_n + (end - x_n) * f]
    that the frames compute for one field approaches [end] monotonically:
    the distance [|x_n - end|] decreases strictly at every step; it never
    overshoots ([x_n] stays strictly on the side of [end] where [start]
    is, moving toward [end]); and the distance falls below every positive
    bound. *)
Theorem C5_lerp_converges_monotonically (start end_ f : Qc) :
  0 < f -> f < 1 -> start <> end_ ->
  let x := fun n => lerpQ_iter n start end_ f in
  (forall n, lerp_iter n (Fin start) (Fin end_) (Fin f) = Fin (x n))
  /\ (forall n, Qcabs (x (S n) - end_) < Qcabs (x n - end_))
  /\ (forall n, (start < end_ -> x n < x (S n) /\ x (S n) < end_)
                /\ (end_ < start -> end_ < x (S n) /\ x (S n) < x n))
  /\ (forall eps, 0 < eps ->
        exists N : nat, forall n : nat, (N <= n)%nat -> Qcabs (x n - end_) < eps).
Proof.
  intros Hf0 Hf1 Hne x.
  assert (Hclosed : forall n, x n = end_ + (1 - f) ^ n * (start - end_)).
  { intros n. rewrite <- (lerpQ_iter_closed n start end_ f). unfold x. ring. }
  assert (Hdist : forall n, Qcabs (x n - end_) = (1 - f) ^ n * Qcabs (start - end_)).
  { intros n. unfold x. rewrite lerpQ_iter_closed, Qcabs_Qcmult.
    rewrite (Qcabs_pos ((1 - f) ^ n)); [reflexivity|].
    apply Qclt_le_weak, contraction_pos; assumption. }
  assert (Hd : 0 < Qcabs (start - end_)).
  { destruct (Qc_eq_dec (Qcabs (start - end_)) 0) as [H0|H0].
    - apply Qcabs_null in H0. exfalso. apply Hne.
      replace start with (start - end_ + end_) by ring. rewrite H0. ring.
    - pose proof (Qcabs_nonneg (start - end_)) as Hge.
      apply Qcle_lt_or_eq in Hge. destruct Hge as [Hlt|Heq]; [exact Hlt|].
      now symmetry in Heq. }
  split; [|split; [|split]].
  - intros n. apply lerp_iter_Fin.
  - intros n. rewrite !Hdist.
    pose proof (contraction_decreases f Hf0 Hf1 n) as Hdec.
    revert Hdec Hd. generalize ((1 - f) ^ S n) ((1 - f) ^ n) (Qcabs (start - end_)).
    intros c' c d Hdec Hd. qc_unfold. nra.
  - intros n. rewrite !Hclosed.
    pose proof (contraction_decreases f Hf0 Hf1 n) as Hdec.
    pose proof (contraction_pos f Hf0 Hf1 (S n)) as Hpos.
    revert Hdec Hpos. generalize ((1 - f) ^ S n) ((1 - f) ^ n).
    intros c' c Hdec Hpos. split; intros Hside; qc_unfold; split; nra.
  - intros eps Heps.
    destruct (archimedean_step (this (Qcabs (start - end_))) (this eps) (this f)
                Heps Hf0) as [N HN].
    exists N. intros n Hn. specialize (HN n Hn). rewrite Hdist.
    pose proof (contraction_pos f Hf0 Hf1 n) as Hpos.
    pose proof (contraction_bound f Hf0 Hf1 n) as Hb.
    revert Hpos Hb HN Hd. unfold Qc_of_nat.
    generalize ((1 - f) ^ n) (Qcabs (start - end_)). intros c d Hpos Hb HN Hd.
    qc_unfold.
    set (m := inject_Z (Z.of_nat n)) in *.
    assert (H1 : (this c * this d < this c * (m * (this eps * this f)))%Q).
    { apply Qmult_lt_l; assumption. }
    assert (H2 : (0 <= this eps * (1 - this c * (1 + m * this f)))%Q).
    { apply Qmult_le_0_compat; lra. }
    assert (H3 : (0 < this eps * this c)%Q) by (apply Qmult_lt_0_compat; assumption).
    lra.
Qed.

Lemma C5_lerp_converges_witness :
  Qcabs (lerpQ_iter 1 0 (qc 100 1) (qc 1 4) - qc 100 1)
  < Qcabs (lerpQ_iter 0 0 (qc 100 1) (qc 1 4) - qc 100 1)
  /\ lerpQ_iter 0 0 (qc 100 1) (qc 1 4) < lerpQ_iter 1 0 (qc 100 1) (qc 1 4)
  /\ lerpQ_iter 1 0 (qc 100 1) (qc 1 4) < qc 100 1.
Proof.
  assert (H0 : 0 < qc 1 4) by qc_closed.
  assert (H1 : qc 1 4 < 1) by qc_closed.
  assert (Hne : 0 <> qc 100 1) by qc_closed.
  destruct (C5_lerp_converges_monotonically 0 (qc 100 1) (qc 1 4) H0 H1 Hne)
    as (_ & Hdist & Hside & _).
  split; [exact (Hdist O)|].
  apply (proj1 (Hside O)). qc_closed.
Defined.

(** ** Idempotence at the target *)

Lemma lerp_same_finite (a speed : number) (f : Qc) :
  isFinite a = true -> speed = Fin f -> lerp a a speed = a.
Proof.
  destruct a as [x| |]; [|discriminate|discriminate]. intros _ ->.
  rewrite lerp_Fin. f_equal. unfold lerpQ. ring.
Qed.

Lemma interpolate_same_finite (f : Qc) (o : Orientation) :
  finiteOrientation o = true -> interpolate (Fin f) o o = o.
Proof.
  unfold finiteOrientation. rewrite !andb_true_iff. intros ((Hx & Hy) & Hz).
  apply orientation_ext. intros prop. rewrite interpolate_prop.
  apply lerp_same_finite with f; [destruct prop; assumption|reflexivity].
Qed.

(** C6, as the code has it.  In a reachable state in which [current]
    equals [target] field by field and the three fields are finite, one
    more frame leaves [current] as it is. *)
Theorem C6_tick_idempotent_at_finite_target (cfg : BoxConfig) (fb : FloatingBox) :
  reachable cfg fb ->
  current fb = target fb ->
  finiteOrientation (current fb) = true ->
  current (updateTransforms cfg fb) = current fb.
Proof.
  intros Hreach Heq Hfin.
  assert (Hidle : isHovered fb = false ->
                  target fb
                  = {| rotateX := Fin 0; rotateY := Fin 0; translateZ := Fin 0 |}).
  { clear Heq Hfin. induction Hreach as [|fb ev _ IH _]; [reflexivity|].
    now apply step_keeps_idle_target. }
  unfold updateTransforms. cbn [current].
  rewrite <- Heq, (interpolate_same_finite _ _ Hfin).
  unfold restSnap. destruct (isHovered fb) eqn:Hhov; cbn [negb andb].
  - reflexivity.
  - rewrite Heq, (Hidle eq_refl).
    destruct (isNearRest cfg _); reflexivity.
Qed.

(** With [motionSpeed] 1 a frame lands on the target of a move to the
    bottom-right corner, and the next frame stays there. *)
Lemma C6_tick_idempotent_witness :
  current (updateTransforms CONFIG_box_speed_1
             (run CONFIG_box_speed_1
                [MouseEnter; MouseMove (pointer_at 400 350) sample_rect; Frame]))
  = current (run CONFIG_box_speed_1
               [MouseEnter; MouseMove (pointer_at 400 350) sample_rect; Frame]).
Proof.
  apply C6_tick_idempotent_at_finite_target.
  - apply reachable_run.
  - apply orientation_eqb_eq. vm_compute. reflexivity.
  - reflexivity.
Defined.

(** C6, as stated, fails.  With [motionSpeed] 1, a hovered box receives a
    move over a bounding box of zero width, the pointer right of its left
    edge and at mid-height: [target] is [{0, Infinity, 100}].  One frame
    makes [current] equal to it, field by field.  The next frame computes
    [Infinity + (Infinity - Infinity) * 1] for [rotateY], which is [NaN]:
    [current] has changed. *)
Lemma C6_idempotence_fails_at_infinite_target :
  let fb := run CONFIG_box_speed_1
              [MouseEnter; MouseMove (pointer_at 130 200) flat_rect; Frame] in
  reachable CONFIG_box_speed_1 fb
  /\ current fb = target fb
  /\ rotateY (current fb) = Infinity
  /\ rotateY (current (updateTransforms CONFIG_box_speed_1 fb)) = NaN
  /\ current (updateTransforms CONFIG_box_speed_1 fb) <> current fb.
Proof.
  cbv zeta. split; [apply reachable_run|].
  split; [apply orientation_eqb_eq; vm_compute; reflexivity|].
  split; [reflexivity|]. split; [reflexivity|].
  intros Heq. apply (f_equal rotateY) in Heq. vm_compute in Heq. discriminate.
Qed.


(** ** The bubble generator *)

Section Bubbles.

Variable random_stream : nat -> Qc.
Variable cfg : BubblesConfig.






End Bubbles.

(** The loop of [initialize()] ends for every [count], integer or not. *)
Lemma initialize_from_total (random_stream : nat -> Qc) (cfg : BubblesConfig)
    (fuel : nat) :
  forall (i : Z) (container : BubbleManager.Container) (pos : nat),
    (Qceiling (count cfg) - i <= Z.of_nat fuel)%Z ->
    exists result,
      BubbleManager.initialize_from random_stream cfg fuel i container pos
      = Some result.
Proof.
  induction fuel as [|fuel IH]; intros i container pos Hfuel;
    cbn [BubbleManager.initialize_from];
    destruct (Qcltb (Q2Qc (inject_Z i)) (count cfg)) eqn:Htest;
    try (eexists; reflexivity).
  - exfalso. apply Qcltb_lt in Htest. qc_unfold.
    pose proof (Qle_ceiling (count cfg)) as Hceil.
    assert (Hlt : (inject_Z i < inject_Z (Qceiling (count cfg)))%Q) by lra.
    rewrite <- Zlt_Qlt in Hlt. lia.
  - destruct (BubbleManager.createBubble random_stream cfg container pos)
      as [container' pos'].
    apply IH. lia.
Qed.

Lemma initialize_total (random_stream : nat -> Qc) (cfg : BubblesConfig)
    (container : BubbleManager.Container) (pos : nat) :
  exists result,
    BubbleManager.initialize random_stream cfg container pos = Some result.
Proof.
  unfold BubbleManager.initialize. apply initialize_from_total. lia.
Qed.




(** ** Boundedness *)









Section Bounded.

Variable cfg : BoxConfig.
Hypothesis rotation_nonneg : 0 <= rotationMax cfg.
Hypothesis speed_nonneg : 0 <= motionSpeed cfg.
Hypothesis speed_le_1 : motionSpeed cfg <= 1.
Hypothesis lift_nonneg : 0 <= hoverHeight cfg.








End Bounded.




(** On the same events the exact numbers land on 15. *)
Example exact_numbers_land_on_the_bound :
  rotateY
    (current
       (run CONFIG_box_speed_1
          [MouseEnter; MouseMove (pointer_at 109 200) sample_rect; Frame;
           MouseMove (pointer_at 400 200) sample_rect; Frame]))
  = Fin (qc 15 1).
Proof. apply number_eqb_eq. vm_compute. reflexivity. Qed.


(** * Further properties of the controller *)

(** ** What each event touches *)

Lemma pointer_event_keeps_current (cfg : BoxConfig) (fb : FloatingBox) (ev : Event) :
  ev <> Frame ->
  current (step cfg fb ev) = current fb
  /\ style_transform (step cfg fb ev) = style_transform fb.
Proof.
  intros Hev. destruct ev as [|e rect| |]; cbn [step].
  - split; reflexivity.
  - unfold handleMouseMove. destruct (isHovered fb); split; reflexivity.
  - split; reflexivity.
  - now contradiction Hev.
Qed.

(** X1.  Only a frame changes [current] and the rendered transform: after
    any sequence of pointer events (enter, move, leave, in any order and
    number, hovered or not) both are what they were. *)
Theorem pointer_events_keep_current (cfg : BoxConfig) (evs : list Event)
    (fb : FloatingBox) :
  Forall (fun ev => ev <> Frame) evs ->
  current (fold_left (step cfg) evs fb) = current fb
  /\ style_transform (fold_left (step cfg) evs fb) = style_transform fb.
Proof.
  intros Hevs. revert fb.
  induction Hevs as [|ev evs Hev _ IH]; intros fb; [split; reflexivity|].
  cbn [fold_left]. destruct (IH (step cfg fb ev)) as [Hc Ht].
  destruct (pointer_event_keeps_current cfg fb ev Hev) as [Hc' Ht'].
  split; congruence.
Qed.

Lemma pointer_events_keep_current_witness :
  current (fold_left (step CONFIG_box)
             [MouseEnter; MouseMove (pointer_at 400 350) sample_rect; MouseLeave]
             (box_with (orientation (qc 3 1) 0 0) zeroOrientation false))
  = orientation (qc 3 1) 0 0.
Proof.
  apply (pointer_events_keep_current CONFIG_box
           [MouseEnter; MouseMove (pointer_at 400 350) sample_rect; MouseLeave]
           (box_with (orientation (qc 3 1) 0 0) zeroOrientation false)).
  repeat constructor; discriminate.
Defined.

(** X2.  Of two pointer-moves handled one after the other, only the
    second counts: the box is the one the second move alone would have
    given (in particular, handling the same move twice is handling it
    once). *)
Theorem later_move_wins (cfg : BoxConfig) (e1 e2 : MouseEvent) (r1 r2 : DOMRect)
    (fb : FloatingBox) :
  handleMouseMove cfg e2 r2 (handleMouseMove cfg e1 r1 fb)
  = handleMouseMove cfg e2 r2 fb.
Proof.
  unfold handleMouseMove. destruct (isHovered fb) eqn:Hhov; cbn [negb].
  - reflexivity.
  - now rewrite Hhov.
Qed.

(** ** Style written by the handlers *)

(** X3.  In every reachable state the style follows the mode.  A hovered
    box has [transition: none] and the glow at [glowOpacity].  A box that
    is not hovered either has never been entered (transition and glow
    opacity not written) or has the transition
    ["transform <duration> <timing>"] and the glow at opacity 0. *)
Theorem style_follows_mode (cfg : BoxConfig) (fb : FloatingBox) :
  reachable cfg fb ->
  (isHovered fb = true ->
   style_transition fb = Some "none"%string
   /\ glow_opacity fb = Some (glowOpacity cfg))
  /\ (isHovered fb = false ->
      (style_transition fb = None /\ glow_opacity fb = None
       /\ glow_mouse_x fb = None /\ glow_mouse_y fb = None)
      \/ (style_transition fb
          = Some ("transform " ++ transitionDuration cfg ++ " "
                    ++ transitionTiming cfg)%string
          /\ glow_opacity fb = Some 0)).
Proof.
  induction 1 as [|fb ev _ [IHhov IHidle] _].
  - split; [discriminate|]. intros _. left. repeat split.
  - destruct ev as [|e rect| |]; cbn [step].
    + split; [intros _; split; reflexivity|discriminate].
    + unfold handleMouseMove. destruct (isHovered fb) eqn:Hhov; cbn [negb].
      * split; [intros _; now apply IHhov|discriminate].
      * split; [intros H; rewrite Hhov in H; discriminate|].
        intros _. now apply IHidle.
    + split; [discriminate|]. intros _. right. split; reflexivity.
    + split; [exact IHhov|exact IHidle].
Qed.

Lemma style_follows_mode_witness :
  style_transition
    (run CONFIG_box [MouseEnter; MouseMove (pointer_at 400 350) sample_rect; Frame])
  = Some "none"%string
  /\ glow_opacity
       (run CONFIG_box [MouseEnter; MouseMove (pointer_at 400 350) sample_rect; Frame])
     = Some (glowOpacity CONFIG_box).
Proof.
  apply (proj1 (style_follows_mode CONFIG_box _ (reachable_run CONFIG_box _))).
  reflexivity.
Defined.

(** X4.  What is rendered is [current]: in every reachable state either
    no frame has run yet, the transform is not written and [current] is
    still zero, or the transform is [translateZ], [rotateX], [rotateY] in
    this order with the three fields of [current]. *)
Theorem transform_renders_current (cfg : BoxConfig) (fb : FloatingBox) :
  reachable cfg fb ->
  (style_transform fb = None
   /\ current fb = {| rotateX := Fin 0; rotateY := Fin 0; translateZ := Fin 0 |})
  \/ style_transform fb
     = Some [("translateZ"%string, translateZ (current fb));
             ("rotateX"%string, rotateX (current fb));
             ("rotateY"%string, rotateY (current fb))].
Proof.
  induction 1 as [|fb ev _ IH _].
  - left. split; reflexivity.
  - destruct ev as [|e rect| |]; cbn [step].
    + exact IH.
    + unfold handleMouseMove. destruct (isHovered fb); exact IH.
    + exact IH.
    + right. reflexivity.
Qed.

Lemma transform_renders_current_witness :
  (style_transform (run CONFIG_box [MouseEnter; Frame; MouseLeave]) = None
   /\ current (run CONFIG_box [MouseEnter; Frame; MouseLeave])
      = {| rotateX := Fin 0; rotateY := Fin 0; translateZ := Fin 0 |})
  \/ style_transform (run CONFIG_box [MouseEnter; Frame; MouseLeave])
     = Some [("translateZ"%string,
              translateZ (current (run CONFIG_box [MouseEnter; Frame; MouseLeave])));
             ("rotateX"%string,
              rotateX (current (run CONFIG_box [MouseEnter; Frame; MouseLeave])));
             ("rotateY"%string,
              rotateY (current (run CONFIG_box [MouseEnter; Frame; MouseLeave])))].
Proof.
  apply (transform_renders_current CONFIG_box). apply reachable_run.
Defined.

(** ** Several frames in a row *)

Lemma frames_S (cfg : BoxConfig) (n : nat) (fb : FloatingBox) :
  frames cfg (S n) fb = updateTransforms cfg (frames cfg n fb).
Proof. reflexivity. Qed.

Lemma frames_keep_mode_and_target (cfg : BoxConfig) (n : nat) (fb : FloatingBox) :
  isHovered (frames cfg n fb) = isHovered fb
  /\ target (frames cfg n fb) = target fb.
Proof.
  induction n as [|n [IHh IHt]]; [split; reflexivity|].
  rewrite frames_S. cbn [updateTransforms isHovered target]. now split.
Qed.

Lemma hovered_frames_iterate (cfg : BoxConfig) (n : nat) (fb : FloatingBox)
    (prop : PropName) :
  isHovered fb = true ->
  getProp prop (current (frames cfg n fb))
  = lerp_iter n (getProp prop (current fb)) (getProp prop (target fb))
      (Fin (motionSpeed cfg)).
Proof.
  intros Hhov. induction n as [|n IH]; [reflexivity|].
  rewrite frames_S. cbn [lerp_iter]. rewrite <- IH.
  destruct (frames_keep_mode_and_target cfg n fb) as [Hh Ht].
  unfold updateTransforms. cbn [current]. unfold restSnap.
  rewrite Hh, Hhov. cbn [negb andb].
  rewrite interpolate_prop, Ht. reflexivity.
Qed.

Lemma hovered_frames_finite (cfg : BoxConfig) (n : nat) (fb : FloatingBox)
    (prop : PropName) (a b : Qc) :
  isHovered fb = true ->
  getProp prop (current fb) = Fin a ->
  getProp prop (target fb) = Fin b ->
  getProp prop (current (frames cfg n fb))
  = Fin (b + (1 - motionSpeed cfg) ^ n * (a - b)).
Proof.
  intros Hhov Ha Hb.
  rewrite (hovered_frames_iterate cfg n fb prop Hhov), Ha, Hb, lerp_iter_Fin.
  f_equal. rewrite <- (lerpQ_iter_closed n a b (motionSpeed cfg)). ring.
Qed.

(** X5.  While the box stays hovered and no pointer event arrives, [n]
    frames apply the interpolation [n] times to each field; for finite
    values, in exact arithmetic (the rounding of binary64 aside), the
    field is then [target + (1 - motionSpeed)^n * (start - target)]: what
    is left of the way is multiplied by [1 - motionSpeed] on every
    frame. *)
Theorem hovered_frames_closed_form (cfg : BoxConfig) (n : nat) (fb : FloatingBox)
    (prop : PropName) :
  isHovered fb = true ->
  getProp prop (current (frames cfg n fb))
  = lerp_iter n (getProp prop (current fb)) (getProp prop (target fb))
      (Fin (motionSpeed cfg))
  /\ (forall a b : Qc,
         getProp prop (current fb) = Fin a ->
         getProp prop (target fb) = Fin b ->
         getProp prop (current (frames cfg n fb))
         = Fin (b + (1 - motionSpeed cfg) ^ n * (a - b))).
Proof.
  intros Hhov. split.
  - now apply hovered_frames_iterate.
  - intros a b Ha Hb. now apply hovered_frames_finite.
Qed.

(** Three frames toward a lift of 100 at speed 1/4 leave (3/4)^3 of the
    way: 100 - 42.1875. *)
Lemma hovered_frames_closed_form_witness :
  getProp P_translateZ
    (current (frames CONFIG_box 3
                (box_with zeroOrientation
                   (orientation (qc 15 1) (qc (-15) 1) (qc 100 1)) true)))
  = Fin (qc 100 1 + (1 - motionSpeed CONFIG_box) ^ 3 * (0 - qc 100 1)).
Proof.
  apply (proj2 (hovered_frames_closed_form CONFIG_box 3
                  (box_with zeroOrientation
                     (orientation (qc 15 1) (qc (-15) 1) (qc 100 1)) true)
                  P_translateZ eq_refl)); reflexivity.
Defined.

(** The contraction factor falls below every positive bound. *)
Lemma contraction_small (f d eps : Qc) :
  0 < f -> f < 1 -> 0 <= d -> 0 < eps ->
  exists N : nat, forall n : nat, (N <= n)%nat -> (1 - f) ^ n * d < eps.
Proof.
  intros Hf0 Hf1 Hd Heps.
  destruct (archimedean_step (this d) (this eps) (this f) Heps Hf0) as [N HN].
  exists N. intros n Hn. specialize (HN n Hn).
  pose proof (contraction_pos f Hf0 Hf1 n) as Hpos.
  pose proof (contraction_bound f Hf0 Hf1 n) as Hb.
  revert Hpos Hb HN. unfold Qc_of_nat.
  generalize ((1 - f) ^ n). intros c Hpos Hb HN.
  qc_unfold.
  set (m := inject_Z (Z.of_nat n)) in *.
  assert (H1 : (this c * this d <= this c * (m * (this eps * this f)))%Q).
  { apply Qmult_le_l; [assumption|]. lra. }
  assert (H2 : (0 <= this eps * (1 - this c * (1 + m * this f)))%Q).
  { apply Qmult_le_0_compat; lra. }
  assert (H3 : (0 < this eps * this c)%Q) by (apply Qmult_lt_0_compat; assumption).
  lra.
Qed.

Lemma isNearRest_scaled (cfg : BoxConfig) (c x y z : Qc) :
  0 <= c ->
  c * Qcabs x < snapThreshold cfg ->
  c * Qcabs y < snapThreshold cfg ->
  c * Qcabs z < snapThreshold cfg ->
  isNearRest cfg (scaled c x y z) = true.
Proof.
  intros Hc Hx Hy Hz. apply isNearRest_spec.
  intros []; cbn [getProp scaled rotateX rotateY translateZ Math_abs lt];
    apply Qcltb_lt; rewrite Qcabs_Qcmult, (Qcabs_pos c Hc); assumption.
Qed.

Lemma interpolate_zero_zero (f : Qc) :
  interpolate (Fin f) zeroOrientation zeroOrientation = zeroOrientation.
Proof. apply interpolate_same_finite. reflexivity. Qed.

Lemma interpolate_scaled_to_zero (f c x y z : Qc) :
  interpolate (Fin f) zeroOrientation (scaled c x y z)
  = scaled ((1 - f) * c) x y z.
Proof.
  apply orientation_ext. intros prop. rewrite interpolate_prop.
  destruct prop; cbn [getProp scaled zeroOrientation rotateX rotateY translateZ];
    rewrite lerp_Fin; f_equal; unfold lerpQ; ring.
Qed.

(** X6.  The rest snap ends the settling.  In exact arithmetic (the
    rounding of binary64 aside), a box that is not hovered, with its
    target at zero and a finite [current], has [current] exactly
    [{0, 0, 0}] after finitely many frames and from then on, as long as no
    pointer event arrives; this for [0 < motionSpeed < 1] and a positive
    [snapThreshold]. *)
Theorem idle_box_settles_at_zero (cfg : BoxConfig) (fb : FloatingBox) (x y z : Qc) :
  0 < motionSpeed cfg -> motionSpeed cfg < 1 ->
  0 < snapThreshold cfg ->
  isHovered fb = false ->
  target fb = {| rotateX := Fin 0; rotateY := Fin 0; translateZ := Fin 0 |} ->
  current fb = {| rotateX := Fin x; rotateY := Fin y; translateZ := Fin z |} ->
  exists N : nat, forall n : nat, (N <= n)%nat ->
    current (frames cfg n fb)
    = {| rotateX := Fin 0; rotateY := Fin 0; translateZ := Fin 0 |}.
Proof.
  intros Hf0 Hf1 Hthr Hidle Htgt Hcur.
  set (f := motionSpeed cfg) in *.
  (* after n >= 1 frames: zero, or the scaled start that was not near rest *)
  assert (Hinv : forall n,
             current (frames cfg (S n) fb) = zeroOrientation
             \/ (current (frames cfg (S n) fb) = scaled ((1 - f) ^ S n) x y z
                 /\ isNearRest cfg (scaled ((1 - f) ^ S n) x y z) = false)).
  { assert (Hstep : forall n c,
               current (frames cfg n fb) = zeroOrientation
               \/ current (frames cfg n fb) = scaled c x y z ->
               current (frames cfg (S n) fb) = zeroOrientation
               \/ (current (frames cfg (S n) fb) = scaled ((1 - f) * c) x y z
                   /\ isNearRest cfg (scaled ((1 - f) * c) x y z) = false)).
    { intros n c Hn. rewrite frames_S.
      destruct (frames_keep_mode_and_target cfg n fb) as [Hh Ht].
      unfold updateTransforms. cbn [current]. rewrite Hh, Ht, Hidle, Htgt.
      fold zeroOrientation. fold f. unfold restSnap. cbn [negb andb].
      destruct Hn as [Hz|Hs].
      - rewrite Hz, interpolate_zero_zero. left.
        destruct (isNearRest cfg zeroOrientation); reflexivity.
      - rewrite Hs, interpolate_scaled_to_zero.
        destruct (isNearRest cfg (scaled ((1 - f) * c) x y z)) eqn:Hnear.
        + left. reflexivity.
        + right. split; reflexivity. }
    induction n as [|n IH].
    - apply (Hstep O 1). right. change (frames cfg 0 fb) with fb. rewrite Hcur.
      unfold scaled. apply orientation_eq; ring.
    - cbn [Qcpower]. apply Hstep. destruct IH as [IH|[IH _]]; [now left|now right]. }
  destruct (contraction_small f (Qcabs x) (snapThreshold cfg) Hf0 Hf1
              (Qcabs_nonneg x) Hthr) as [Nx HNx].
  destruct (contraction_small f (Qcabs y) (snapThreshold cfg) Hf0 Hf1
              (Qcabs_nonneg y) Hthr) as [Ny HNy].
  destruct (contraction_small f (Qcabs z) (snapThreshold cfg) Hf0 Hf1
              (Qcabs_nonneg z) Hthr) as [Nz HNz].
  exists (S (Nx + Ny + Nz)). intros n Hn.
  destruct n as [|n]; [lia|].
  destruct (Hinv n) as [Hz|[_ Hfar]]; [exact Hz|].
  rewrite isNearRest_scaled in Hfar; [discriminate| | | |].
  - apply Qclt_le_weak, contraction_pos; assumption.
  - apply HNx. lia.
  - apply HNy. lia.
  - apply HNz. lia.
Qed.

(** The shipped configuration, from a full tilt and lift with the pointer
    gone: 32 frames are not enough, the 33rd snaps. *)
Example settles_in_33_frames :
  current (frames CONFIG_box 32
             (box_with (orientation (qc 15 1) (qc (-15) 1) (qc 100 1))
                zeroOrientation false))
  <> zeroOrientation
  /\ current (frames CONFIG_box 33
                (box_with (orientation (qc 15 1) (qc (-15) 1) (qc 100 1))
                   zeroOrientation false))
     = zeroOrientation.
Proof.
  split.
  - intros H. apply (f_equal translateZ) in H.
    apply (f_equal (fun a => number_eqb a (Fin 0))) in H.
    vm_compute in H. discriminate.
  - apply orientation_eqb_eq. vm_compute. reflexivity.
Qed.

Lemma idle_box_settles_witness :
  exists N : nat, forall n : nat, (N <= n)%nat ->
    current (frames CONFIG_box n
               (box_with (orientation (qc 15 1) (qc (-15) 1) (qc 100 1))
                  zeroOrientation false))
    = {| rotateX := Fin 0; rotateY := Fin 0; translateZ := Fin 0 |}.
Proof.
  apply (idle_box_settles_at_zero CONFIG_box
           (box_with (orientation (qc 15 1) (qc (-15) 1) (qc 100 1))
              zeroOrientation false)
           (qc 15 1) (qc (-15) 1) (qc 100 1)).
  - qc_closed.
  - qc_closed.
  - qc_closed.
  - reflexivity.
  - reflexivity.
  - reflexivity.
Defined.

(** X18.  Without the rest snap the target is never reached: while the
    box stays hovered, with [0 < motionSpeed < 1], a finite field that
    differs from its finite target still differs from it after any number
    of frames. *)
Theorem hovered_box_never_arrives (cfg : BoxConfig) (n : nat) (fb : FloatingBox)
    (prop : PropName) (a b : Qc) :
  0 < motionSpeed cfg -> motionSpeed cfg < 1 ->
  isHovered fb = true ->
  getProp prop (current fb) = Fin a ->
  getProp prop (target fb) = Fin b ->
  a <> b ->
  getProp prop (current (frames cfg n fb)) <> getProp prop (target fb).
Proof.
  intros Hf0 Hf1 Hhov Ha Hb Hne.
  rewrite (hovered_frames_finite cfg n fb prop a b Hhov Ha Hb), Hb.
  intros Heq. injection Heq as Heq.
  pose proof (contraction_pos (motionSpeed cfg) Hf0 Hf1 n) as Hpos.
  assert (Hprod : (1 - motionSpeed cfg) ^ n * (a - b) = 0).
  { replace ((1 - motionSpeed cfg) ^ n * (a - b))
      with (b + (1 - motionSpeed cfg) ^ n * (a - b) - b) by ring.
    rewrite Heq. ring. }
  apply Qcmult_integral in Hprod. destruct Hprod as [H0|H0].
  - rewrite H0 in Hpos. revert Hpos. qc_unfold. lra.
  - apply Hne. replace a with (a - b + b) by ring. rewrite H0. ring.
Qed.

Lemma hovered_box_never_arrives_witness :
  getProp P_translateZ
    (current (frames CONFIG_box 200
                (box_with zeroOrientation
                   (orientation (qc 15 1) (qc (-15) 1) (qc 100 1)) true)))
  <> getProp P_translateZ
       (target (box_with zeroOrientation
                  (orientation (qc 15 1) (qc (-15) 1) (qc 100 1)) true)).
Proof.
  apply (hovered_box_never_arrives CONFIG_box 200
           (box_with zeroOrientation
              (orientation (qc 15 1) (qc (-15) 1) (qc 100 1)) true)
           P_translateZ 0 (qc 100 1)).
  - qc_closed.
  - qc_closed.
  - reflexivity.
  - reflexivity.
  - reflexivity.
  - qc_closed.
Defined.

(** ** The focal point of the glow *)

Lemma toFixed2_nonneg (q : Qc) :
  0 <= q ->
  exists p : Qc,
    toFixed2 (Fin q) = Fin p
    /\ 0 <= p
    /\ q - qc 1 200 <= p /\ p <= q + qc 1 200
    /\ (q <= qc 100 1 -> p <= qc 100 1).
Proof.
  intros Hq. cbn [toFixed2].
  assert (Hneg : Qcltb q 0 = false).
  { destruct (Qcltb q 0) eqn:E; [|reflexivity].
    apply Qcltb_lt in E. qc_unfold. lra. }
  rewrite Hneg.
  set (n := Qfloor (Qabs q * 100 + (1 # 2))%Q).
  assert (Habs : (Qabs q == q)%Q) by (apply Qabs_pos; exact Hq).
  pose proof (Qfloor_le (Qabs q * 100 + (1 # 2))%Q) as Hlo.
  pose proof (Qlt_floor (Qabs q * 100 + (1 # 2))%Q) as Hhi.
  fold n in Hlo, Hhi. rewrite Habs in Hlo, Hhi.
  rewrite inject_Z_plus in Hhi. change (inject_Z 1) with 1%Q in Hhi.
  assert (Hn : (n # 100 == inject_Z n / 100)%Q).
  { rewrite (Qmake_Qdiv n 100). reflexivity. }
  exists (Q2Qc (n # 100)). split; [reflexivity|].
  assert (Hn0 : (0 <= inject_Z n)%Q).
  { change 0%Q with (inject_Z 0). rewrite <- Zle_Qle.
    apply Z.lt_succ_r. rewrite Zlt_Qlt. unfold Z.succ.
    rewrite inject_Z_plus. change (inject_Z 0) with 0%Q.
    change (inject_Z 1) with 1%Q. qc_unfold. lra. }
  assert (Hdiv : (inject_Z n / 100 * 100 == inject_Z n)%Q) by (field).
  qc_unfold. rewrite !Hn.
  set (p := (inject_Z n / 100)%Q) in *.
  repeat split; try lra.
  intros H100.
  assert (Hle : (n <= 10000)%Z).
  { apply Z.lt_succ_r. rewrite Zlt_Qlt. unfold Z.succ.
    rewrite inject_Z_plus. change (inject_Z 1) with 1%Q.
    change (inject_Z 10000) with (10000 # 1)%Q. lra. }
  rewrite Zle_Qle in Hle. change (inject_Z 10000) with (10000 # 1)%Q in Hle. lra.
Qed.

(** X7.  A pointer-move handled while the box is hovered, with the pointer
    inside a bounding box of non-zero size (fractions in [[0,1]]), writes
    both coordinates of the glow's focal point as percentages in
    [[0, 100]], each within 0.005 of 100 times its fraction. *)
Theorem glow_focal_point_is_a_percentage (cfg : BoxConfig) (e : MouseEvent)
    (rect : DOMRect) (fb : FloatingBox) (fx fy : Qc) :
  isHovered fb = true ->
  fractionX e rect = Fin fx -> fractionY e rect = Fin fy ->
  0 <= fx -> fx <= 1 -> 0 <= fy -> fy <= 1 ->
  exists px py : Qc,
    glow_mouse_x (handleMouseMove cfg e rect fb) = Some (Fin px)
    /\ glow_mouse_y (handleMouseMove cfg e rect fb) = Some (Fin py)
    /\ (0 <= px /\ px <= qc 100 1) /\ (0 <= py /\ py <= qc 100 1)
    /\ Qcabs (px - fx * qc 100 1) <= qc 1 200
    /\ Qcabs (py - fy * qc 100 1) <= qc 1 200.
Proof.
  intros Hhov Hx Hy Hx0 Hx1 Hy0 Hy1.
  assert (Hqx : 0 <= fx * qc 100 1 /\ fx * qc 100 1 <= qc 100 1)
    by (qc_unfold; split; lra).
  assert (Hqy : 0 <= fy * qc 100 1 /\ fy * qc 100 1 <= qc 100 1)
    by (qc_unfold; split; lra).
  destruct (toFixed2_nonneg (fx * qc 100 1) (proj1 Hqx))
    as (px & Hpx & Hpx0 & Hpxl & Hpxh & Hpx100).
  destruct (toFixed2_nonneg (fy * qc 100 1) (proj1 Hqy))
    as (py & Hpy & Hpy0 & Hpyl & Hpyh & Hpy100).
  exists px, py. unfold handleMouseMove. rewrite Hhov.
  cbn [negb updateGlowPosition glow_mouse_x glow_mouse_y].
  rewrite Hx, Hy. cbn [mul]. rewrite Hpx, Hpy.
  split; [reflexivity|]. split; [reflexivity|].
  split; [split; [assumption|apply Hpx100, Hqx]|].
  split; [split; [assumption|apply Hpy100, Hqy]|].
  split; apply Qcabs_Qcle_condition; generalize dependent (fx * qc 100 1);
    generalize dependent (fy * qc 100 1); intros; qc_unfold; split; lra.
Qed.

(** The center of a 300 by 300 box: the focal point is at 50%, 50%. *)
Lemma glow_focal_point_witness :
  exists px py : Qc,
    glow_mouse_x (handleMouseMove CONFIG_box (pointer_at 250 200) sample_rect
                    (handleMouseEnter CONFIG_box constructor))
    = Some (Fin px)
    /\ glow_mouse_y (handleMouseMove CONFIG_box (pointer_at 250 200) sample_rect
                       (handleMouseEnter CONFIG_box constructor))
       = Some (Fin py)
    /\ (0 <= px /\ px <= qc 100 1) /\ (0 <= py /\ py <= qc 100 1)
    /\ Qcabs (px - qc 1 2 * qc 100 1) <= qc 1 200
    /\ Qcabs (py - qc 1 2 * qc 100 1) <= qc 1 200.
Proof.
  apply (glow_focal_point_is_a_percentage CONFIG_box (pointer_at 250 200)
           sample_rect (handleMouseEnter CONFIG_box constructor)
           (qc 1 2) (qc 1 2)).
  - reflexivity.
  - apply number_eqb_eq. vm_compute. reflexivity.
  - apply number_eqb_eq. vm_compute. reflexivity.
  - qc_closed.
  - qc_closed.
  - qc_closed.
  - qc_closed.
Defined.

(** * Further properties of the random helpers and the bubbles *)

(** X8.  [getRandomRange(min, max)] takes one draw; in exact arithmetic
    (the rounding of binary64 aside), with the draw in [[0,1)] and
    [min <= max] the result is in [[min, max]], below [max] when
    [min < max]; with the bounds swapped it is in [(max, min]]. *)
Theorem getRandomRange_within (random_stream : nat -> Qc) (min max : Qc)
    (pos : nat) :
  0 <= random_stream pos -> random_stream pos < 1 ->
  snd (getRandomRange random_stream min max pos) = S pos
  /\ (min <= max ->
      min <= fst (getRandomRange random_stream min max pos)
      /\ fst (getRandomRange random_stream min max pos) <= max)
  /\ (min < max -> fst (getRandomRange random_stream min max pos) < max)
  /\ (max < min ->
      max < fst (getRandomRange random_stream min max pos)
      /\ fst (getRandomRange random_stream min max pos) <= min).
Proof.
  intros H0 H1.
  unfold getRandomRange, BubbleManager.bind, BubbleManager.Math_random,
    BubbleManager.ret. cbn [fst snd].
  revert H0 H1. generalize (random_stream pos). intros r H0 H1.
  split; [reflexivity|]. repeat split; qc_unfold; nra.
Qed.

Lemma getRandomRange_witness :
  qc 10 1 <= fst (getRandomRange always_half (qc 10 1) (qc 20 1) 0%nat)
  /\ fst (getRandomRange always_half (qc 10 1) (qc 20 1) 0%nat) <= qc 20 1.
Proof.
  assert (H0 : 0 <= always_half 0%nat) by qc_closed.
  assert (H1 : always_half 0%nat < 1) by qc_closed.
  apply (proj1 (proj2 (getRandomRange_within always_half (qc 10 1) (qc 20 1) 0%nat
                         H0 H1))).
  qc_closed.
Defined.

Section Palette.

Variable random_stream : nat -> Qc.
Variable cfg : BubblesConfig.

Lemma random_index_in_range {A : Type} (r : Qc) (arr : list A) :
  0 <= r -> r < 1 -> arr <> [] ->
  (0 <= BubbleManager.random_index r arr
   < Z.of_nat (List.length arr))%Z.
Proof.
  intros H0 H1 Hne. unfold BubbleManager.random_index.
  assert (Hlen : (0 < Z.of_nat (List.length arr))%Z).
  { destruct arr; [contradiction|cbn [List.length]; lia]. }
  set (len := Z.of_nat (List.length arr)) in *.
  rewrite Zlt_Qlt in Hlen. change (inject_Z 0) with 0%Q in Hlen.
  cbn [this Qcmult Q2Qc].
  rewrite (Qfloor_comp _ (this r * inject_Z len)%Q).
  2:{ rewrite Qred_correct. reflexivity. }
  pose proof (Qfloor_le (this r * inject_Z len)) as Hlo.
  pose proof (Qlt_floor (this r * inject_Z len)) as Hhi.
  rewrite inject_Z_plus in Hhi. change (inject_Z 1) with 1%Q in Hhi.
  qc_unfold.
  split.
  - apply Z.lt_succ_r. rewrite Zlt_Qlt. unfold Z.succ. rewrite inject_Z_plus.
    change (inject_Z 1) with 1%Q. change (inject_Z 0) with 0%Q in *. nra.
  - rewrite Zlt_Qlt. nra.
Qed.

Lemma array_get_random {A : Type} (r : Qc) (arr : list A) :
  0 <= r -> r < 1 -> arr <> [] ->
  exists a : A,
    BubbleManager.array_get arr (BubbleManager.random_index r arr) = Some a
    /\ In a arr.
Proof.
  intros H0 H1 Hne.
  destruct (random_index_in_range r arr H0 H1 Hne) as [Hlo Hhi].
  unfold BubbleManager.array_get.
  destruct (Z.ltb_spec (BubbleManager.random_index r arr) 0) as [Hneg|_]; [lia|].
  destruct (nth_error arr (Z.to_nat (BubbleManager.random_index r arr))) as [a|] eqn:E.
  - exists a. split; [reflexivity|]. now apply nth_error_In in E.
  - apply nth_error_None in E. lia.
Qed.

Lemma array_get_empty {A : Type} (index : Z) :
  BubbleManager.array_get (@nil A) index = None.
Proof.
  unfold BubbleManager.array_get. destruct (index <? 0)%Z; [reflexivity|].
  now destruct (Z.to_nat index).
Qed.

(** X9.  [getRandomColor()] takes two draws.  When the first is below 0.3
    the result is an entry of [gradients], otherwise an entry of [colors]
    (the second draw in [[0,1)] picks it); only an empty palette gives
    [undefined]. *)
Theorem getRandomColor_from_palette (pos : nat) :
  0 <= random_stream (S pos) -> random_stream (S pos) < 1 ->
  snd (BubbleManager.getRandomColor random_stream cfg pos) = S (S pos)
  /\ (random_stream pos < qc 3 10 ->
      (gradients cfg <> [] ->
       exists c, fst (BubbleManager.getRandomColor random_stream cfg pos) = Some c
                 /\ In c (gradients cfg))
      /\ (gradients cfg = [] ->
          fst (BubbleManager.getRandomColor random_stream cfg pos) = None))
  /\ (qc 3 10 <= random_stream pos ->
      (colors cfg <> [] ->
       exists c, fst (BubbleManager.getRandomColor random_stream cfg pos) = Some c
                 /\ In c (colors cfg))
      /\ (colors cfg = [] ->
          fst (BubbleManager.getRandomColor random_stream cfg pos) = None)).
Proof.
  intros H0 H1.
  unfold BubbleManager.getRandomColor, BubbleManager.bind,
    BubbleManager.Math_random, BubbleManager.ret.
  destruct (Qcltb (random_stream pos) (qc 3 10)) eqn:Hpick; cbn [fst snd].
  - split; [reflexivity|]. split.
    + intros _. split.
      * intros Hne. now apply array_get_random.
      * intros ->. apply array_get_empty.
    + intros Hge. apply Qcltb_lt in Hpick. exfalso.
      revert Hge Hpick. generalize (random_stream pos). intros r ? ?.
      qc_unfold. lra.
  - split; [reflexivity|]. split.
    + intros Hlt. apply Qcltb_lt in Hlt. congruence.
    + intros _. split.
      * intros Hne. now apply array_get_random.
      * intros ->. apply array_get_empty.
Qed.

End Palette.

Lemma getRandomColor_witness :
  exists c,
    fst (BubbleManager.getRandomColor always_half CONFIG_bubbles 0%nat) = Some c
    /\ In c (colors CONFIG_bubbles).
Proof.
  assert (H0 : 0 <= always_half 1%nat) by qc_closed.
  assert (H1 : always_half 1%nat < 1) by qc_closed.
  assert (Hpick : qc 3 10 <= always_half 0%nat) by qc_closed.
  apply (proj1 (proj2 (proj2 (getRandomColor_from_palette always_half
                                 CONFIG_bubbles 0%nat H0 H1)) Hpick)).
  discriminate.
Defined.

(** ** The loop of [initialize()] for any [count] *)

Section Loop.

Variable random_stream : nat -> Qc.
Variable cfg : BubblesConfig.

(** The bubble [createBubble()] appends does not depend on the container. *)
Lemma createBubble_alone (container : BubbleManager.Container) (pos : nat) :
  exists b : Bubble,
    BubbleManager.createBubble random_stream cfg [] pos = (b :: nil, (pos + 8)%nat)
    /\ BubbleManager.createBubble random_stream cfg container pos
       = (container ++ b :: nil, (pos + 8)%nat).
Proof.
  unfold BubbleManager.createBubble, BubbleManager.getRandomColor,
    BubbleManager.bind, BubbleManager.Math_random, BubbleManager.ret.
  destruct (Qcltb (random_stream (S (S (S (S (S pos)))))) (qc 3 10));
    eexists; split; cbn [app]; f_equal; lia.
Qed.

Lemma loop_test_ceiling (i : Z) :
  Qcltb (Q2Qc (inject_Z i)) (count cfg) = true <-> (i < Qceiling (count cfg))%Z.
Proof.
  rewrite Qcltb_lt. qc_unfold.
  pose proof (Qle_ceiling (count cfg)) as Hle.
  pose proof (Qceiling_lt (count cfg)) as Hlt. split.
  - intros H. rewrite Zlt_Qlt. lra.
  - intros H. assert (Hi : (i <= Qceiling (count cfg) - 1)%Z) by lia.
    rewrite Zle_Qle in Hi. lra.
Qed.

Lemma initialize_from_any_count (k : nat) :
  forall (i : Z) (fuel : nat) (container : BubbleManager.Container) (pos : nat),
    k = Z.to_nat (Qceiling (count cfg) - i) -> (k <= fuel)%nat ->
    exists added : list Bubble,
      BubbleManager.initialize_from random_stream cfg fuel i container pos
      = Some (container ++ added, (pos + 8 * k)%nat)
      /\ List.length added = k
      /\ (forall (j : nat) (b : Bubble),
             nth_error added j = Some b ->
             BubbleManager.createBubble random_stream cfg [] (pos + 8 * j)%nat
             = (b :: nil, (pos + 8 * j + 8)%nat)).
Proof.
  induction k as [|k IH]; intros i fuel container pos Hk Hfuel.
  - exists []. assert (Htest : Qcltb (Q2Qc (inject_Z i)) (count cfg) = false).
    { destruct (Qcltb _ _) eqn:E; [|reflexivity].
      apply loop_test_ceiling in E. lia. }
    destruct fuel; cbn [BubbleManager.initialize_from]; rewrite Htest;
      rewrite app_nil_r, Nat.mul_0_r, Nat.add_0_r;
      (split; [reflexivity|split; [reflexivity|]]);
      intros [|j] b Hb; discriminate Hb.
  - assert (Htest : Qcltb (Q2Qc (inject_Z i)) (count cfg) = true).
    { apply loop_test_ceiling. lia. }
    destruct fuel as [|fuel]; [lia|].
    cbn [BubbleManager.initialize_from]. rewrite Htest.
    destruct (createBubble_alone container pos) as (b & Halone & Hb).
    rewrite Hb.
    destruct (IH (i + 1)%Z fuel (container ++ b :: nil) (pos + 8)%nat)
      as (added & Hrun & Hlen & Hnth); [lia|lia|].
    exists (b :: added). rewrite Hrun. split; [|split].
    + rewrite <- app_assoc. cbn [app]. do 2 f_equal. lia.
    + cbn [List.length]. now rewrite Hlen.
    + intros [|j] b' Hb'; cbn [nth_error] in Hb'.
      * injection Hb' as <-. rewrite Nat.mul_0_r, Nat.add_0_r. exact Halone.
      * specialize (Hnth j b' Hb').
        replace (pos + 8 * S j)%nat with (pos + 8 + 8 * j)%nat by lia.
        exact Hnth.
Qed.

End Loop.

Lemma initialize_adds_ceiling (random_stream : nat -> Qc)
    (cfg : BubblesConfig) (container : BubbleManager.Container) (pos : nat) :
  exists added : list Bubble,
    BubbleManager.initialize random_stream cfg container pos
    = Some (container ++ added,
            (pos + 8 * Z.to_nat (Qceiling (count cfg)))%nat)
    /\ List.length added = Z.to_nat (Qceiling (count cfg)).
Proof.
  unfold BubbleManager.initialize.
  destruct (initialize_from_any_count random_stream cfg
              (Z.to_nat (Qceiling (count cfg))) 0%Z
              (Z.to_nat (Qceiling (count cfg))) container pos)
    as (added & Hrun & Hlen & _); [f_equal; lia|lia|].
  exists added. now split.
Qed.



(** X11.  The bubbles of one [initialize()] are sampled independently: the
    bubble at index [j] among the new ones is the bubble [createBubble()]
    alone makes from the 8 draws at positions [pos + 8j] to [pos + 8j + 7],
    so it depends on no other draw and on no other bubble. *)
Theorem bubbles_use_disjoint_draws (random_stream : nat -> Qc)
    (cfg : BubblesConfig) (container added : list Bubble)
    (pos pos' j : nat) (b : Bubble) :
  BubbleManager.initialize random_stream cfg container pos
  = Some (container ++ added, pos') ->
  nth_error added j = Some b ->
  BubbleManager.createBubble random_stream cfg [] (pos + 8 * j)%nat
  = (b :: nil, (pos + 8 * j + 8)%nat)
  /\ (forall other_stream : nat -> Qc,
         (forall p, (pos + 8 * j <= p < pos + 8 * j + 8)%nat ->
                    other_stream p = random_stream p) ->
         BubbleManager.createBubble other_stream cfg [] (pos + 8 * j)%nat
         = (b :: nil, (pos + 8 * j + 8)%nat)).
Proof.
  intros Hinit Hnth. unfold BubbleManager.initialize in Hinit.
  destruct (initialize_from_any_count random_stream cfg
              (Z.to_nat (Qceiling (count cfg))) 0%Z
              (Z.to_nat (Qceiling (count cfg))) container pos)
    as (added' & Hrun & _ & Hnth'); [f_equal; lia|lia|].
  rewrite Hrun in Hinit. injection Hinit as Hres' _.
  apply app_inv_head in Hres'. subst added'.
  pose proof (Hnth' j b Hnth) as Hb. split; [exact Hb|].
  intros other Hsame. rewrite <- Hb.
  unfold BubbleManager.createBubble, BubbleManager.getRandomColor,
    BubbleManager.bind, BubbleManager.Math_random, BubbleManager.ret.
  cbv beta iota zeta.
  set (p := (pos + 8 * j)%nat) in *.
  rewrite (Hsame (S (S (S (S (S p)))))) by lia.
  destruct (Qcltb (random_stream (S (S (S (S (S p)))))) (qc 3 10));
    cbv beta iota zeta; repeat rewrite Hsame by lia; reflexivity.
Qed.

(** Three bubbles: the third is made from the draws 16 to 23 alone, and a
    source that differs on every other draw makes the same third bubble. *)
Lemma bubbles_use_disjoint_draws_witness :
  exists b : Bubble,
    BubbleManager.createBubble always_half
      (bubbles_config (qc 3 1) (qc 50 1) (qc 30 1) (qc 12 1) (qc 4 1)) []
      (0 + 8 * 2)%nat
    = (b :: nil, (0 + 8 * 2 + 8)%nat)
    /\ BubbleManager.createBubble half_in_third_window
         (bubbles_config (qc 3 1) (qc 50 1) (qc 30 1) (qc 12 1) (qc 4 1)) []
         (0 + 8 * 2)%nat
       = (b :: nil, (0 + 8 * 2 + 8)%nat).
Proof.
  destruct (initialize_adds_ceiling always_half
              (bubbles_config (qc 3 1) (qc 50 1) (qc 30 1) (qc 12 1) (qc 4 1))
              [] 0%nat) as (added & Hrun & Hlen).
  destruct added as [|b0 [|b1 [|b2 added]]]; try discriminate Hlen.
  exists b2.
  destruct (bubbles_use_disjoint_draws always_half
              (bubbles_config (qc 3 1) (qc 50 1) (qc 30 1) (qc 12 1) (qc 4 1))
              [] (b0 :: b1 :: b2 :: added) 0 _ 2 b2 Hrun eq_refl) as [Hb Hother].
  split; [exact Hb|]. apply Hother.
  intros p Hp. unfold half_in_third_window, always_half.
  destruct (Nat.leb_spec 16 p) as [_|Hlo]; [|exfalso; clear - Hp Hlo; lia].
  destruct (Nat.ltb_spec p 24) as [_|Hhi]; [reflexivity|exfalso; clear - Hp Hhi; lia].
Defined.

(** X12.  Every bubble [initialize()] adds, with draws in [[0,1)], drifts
    by a length in [[-50, 50)], sways by one in [[-20, 20)], starts at a
    horizontal position in [[0, 100)] percent, sways with half the period
    of its rise and blends in [screen] mode; with two non-empty palettes
    its background is an entry of one of them. *)
Theorem bubble_motion_parameters (random_stream : nat -> Qc)
    (cfg : BubblesConfig) (container added : list Bubble)
    (pos pos' : nat) (b : Bubble) :
  (forall i, 0 <= random_stream i /\ random_stream i < 1) ->
  BubbleManager.initialize random_stream cfg container pos
  = Some (container ++ added, pos') ->
  In b added ->
  (qc (-50) 1 <= driftX b /\ driftX b < qc 50 1)
  /\ (qc (-20) 1 <= swayAmount b /\ swayAmount b < qc 20 1)
  /\ (0 <= left_percent b /\ left_percent b < qc 100 1)
  /\ swayDuration b = duration b * qc 1 2
  /\ mixBlendMode b = "screen"%string
  /\ (gradients cfg <> [] -> colors cfg <> [] ->
      exists c, background b = Some c
                /\ (In c (gradients cfg) \/ In c (colors cfg))).
Proof.
  intros Hrnd Hinit Hin. unfold BubbleManager.initialize in Hinit.
  destruct (initialize_from_any_count random_stream cfg
              (Z.to_nat (Qceiling (count cfg))) 0%Z
              (Z.to_nat (Qceiling (count cfg))) container pos)
    as (added' & Hrun & _ & Hnth); [f_equal; lia|lia|].
  rewrite Hrun in Hinit. injection Hinit as Hres _.
  apply app_inv_head in Hres. subst added'.
  apply In_nth_error in Hin. destruct Hin as [j Hj].
  specialize (Hnth j b Hj). clear Hrun Hj.
  set (p := (pos + 8 * j)%nat) in *.
  unfold BubbleManager.createBubble, BubbleManager.getRandomColor,
    BubbleManager.bind, BubbleManager.Math_random, BubbleManager.ret in Hnth.
  cbv beta iota zeta in Hnth.
  destruct (Hrnd (S (S (S p)))) as [Hd0 Hd1].
  destruct (Hrnd (S (S (S (S p))))) as [Hs0 Hs1].
  destruct (Hrnd (S (S (S (S (S (S p))))))) as [Hc0 Hc1].
  destruct (Hrnd (S (S (S (S (S (S (S p)))))))) as [Hl0 Hl1].
  assert (Hfields :
            driftX b = (random_stream (S (S (S p))) - qc 1 2) * qc 100 1
            /\ swayAmount b = (random_stream (S (S (S (S p)))) - qc 1 2) * qc 40 1
            /\ left_percent b
               = random_stream (S (S (S (S (S (S (S p))))))) * qc 100 1
            /\ swayDuration b = duration b * qc 1 2
            /\ mixBlendMode b = "screen"%string
            /\ (background b
                = BubbleManager.array_get (gradients cfg)
                    (BubbleManager.random_index
                       (random_stream (S (S (S (S (S (S p))))))) (gradients cfg))
                \/ background b
                   = BubbleManager.array_get (colors cfg)
                       (BubbleManager.random_index
                          (random_stream (S (S (S (S (S (S p))))))) (colors cfg)))).
  { destruct (Qcltb (random_stream (S (S (S (S (S p)))))) (qc 3 10));
      cbv beta iota zeta in Hnth; cbn [app] in Hnth;
      injection Hnth as Hb; subst b;
      cbn [driftX swayAmount left_percent swayDuration duration mixBlendMode
             background];
      repeat split; auto. }
  destruct Hfields as (Hdrift & Hsway & Hleft & Hsd & Hblend & Hbg).
  rewrite Hdrift, Hsway, Hleft.
  split; [|split; [|split; [|split; [exact Hsd|split; [exact Hblend|]]]]].
  - revert Hd0 Hd1. generalize (random_stream (S (S (S p)))). intros r ? ?.
    qc_unfold. split; lra.
  - revert Hs0 Hs1. generalize (random_stream (S (S (S (S p))))). intros r ? ?.
    qc_unfold. split; lra.
  - revert Hl0 Hl1. generalize (random_stream (S (S (S (S (S (S (S p)))))))).
    intros r ? ?. qc_unfold. split; lra.
  - intros Hg Hc. destruct Hbg as [Hbg|Hbg]; rewrite Hbg.
    + destruct (array_get_random (random_stream (S (S (S (S (S (S p)))))))
                  (gradients cfg) Hc0 Hc1 Hg) as (c & Hget & Hmem).
      exists c. split; [exact Hget|now left].
    + destruct (array_get_random (random_stream (S (S (S (S (S (S p)))))))
                  (colors cfg) Hc0 Hc1 Hc) as (c & Hget & Hmem).
      exists c. split; [exact Hget|now right].
Qed.

(** The first of the 50 bubbles of the shipped configuration. *)
Lemma bubble_motion_parameters_witness :
  exists b : Bubble,
    (qc (-50) 1 <= driftX b /\ driftX b < qc 50 1)
    /\ (qc (-20) 1 <= swayAmount b /\ swayAmount b < qc 20 1)
    /\ (0 <= left_percent b /\ left_percent b < qc 100 1)
    /\ swayDuration b = duration b * qc 1 2
    /\ mixBlendMode b = "screen"%string.
Proof.
  destruct (initialize_adds_ceiling always_half CONFIG_bubbles [] 0%nat)
    as (added & Hrun & Hlen).
  destruct added as [|b added]; [discriminate Hlen|].
  exists b.
  assert (Hrnd : forall i, 0 <= always_half i /\ always_half i < 1)
    by (intros i; split; qc_closed).
  destruct (bubble_motion_parameters always_half CONFIG_bubbles [] (b :: added)
              0 _ b Hrnd Hrun (or_introl eq_refl))
    as (Hd & Hs & Hl & Hsd & Hm & _).
  repeat split; first [apply Hd | apply Hs | apply Hl | exact Hsd | exact Hm].
Defined.

(** * The CSS variables of the configuration *)

Import CssVariables.

Lemma append_assoc (a b c : string) : ((a ++ b) ++ c = a ++ (b ++ c))%string.
Proof. induction a as [|ch a IH]; cbn; [reflexivity|now rewrite IH]. Qed.

Lemma JSValue_nested_ind (P : JSValue -> Prop) :
  (forall text, P (JSPrim text)) ->
  P JSNull ->
  (forall items, Forall P items -> P (JSArray items)) ->
  (forall entries, Forall (fun kv => P (snd kv)) entries -> P (JSObject entries)) ->
  forall v, P v.
Proof.
  intros Hprim Hnull Harr Hobj. fix IH 1. intros [text| |items|entries].
  - apply Hprim.
  - apply Hnull.
  - apply Harr. induction items as [|v items IHitems]; constructor.
    + apply IH.
    + exact IHitems.
  - apply Hobj. induction entries as [|[k v] entries IHentries]; constructor.
    + apply IH.
    + exact IHentries.
Qed.

Lemma setVar_entry_object (prefix key : string) (entries : list (string * JSValue))
    (calls : StyleCalls) :
  setVar_entry prefix key (JSObject entries) calls
  = setVar (prefix ++ key ++ "-") entries calls.
Proof.
  cbn [setVar_entry]. revert calls.
  induction entries as [|[k v] rest IH]; intros calls; [reflexivity|].
  cbn [setVar]. destruct (setVar_entry _ k v calls) as [calls' [|]];
    [apply IH|reflexivity].
Qed.

Lemma setVar_entry_array (prefix key : string) (items : list JSValue)
    (calls : StyleCalls) :
  setVar_entry prefix key (JSArray items) calls
  = setVar_items (prefix ++ key ++ "-") 0 items calls.
Proof.
  cbn [setVar_entry]. generalize O. revert calls.
  induction items as [|v rest IH]; intros calls i; [reflexivity|].
  cbn [setVar_items]. destruct (setVar_entry _ (index_key i) v calls) as [calls' [|]];
    [apply IH|reflexivity].
Qed.

(** The calls an entry adds and the way it ends do not depend on the
    calls made before; nothing made before is dropped. *)
Lemma setVar_entry_appends (v : JSValue) :
  forall (prefix key : string) (calls : StyleCalls),
    setVar_entry prefix key v calls
    = (calls ++ fst (setVar_entry prefix key v []),
       snd (setVar_entry prefix key v [])).
Proof.
  induction v as [text| |items IH|entries IH] using JSValue_nested_ind;
    intros prefix key calls.
  - reflexivity.
  - cbn [setVar_entry fst snd]. now rewrite app_nil_r.
  - rewrite !setVar_entry_array. generalize (prefix ++ key ++ "-")%string O.
    intros q. revert calls.
    induction IH as [|v rest Hv _ IHrest]; intros calls i.
    + cbn [setVar_items fst snd]. now rewrite app_nil_r.
    + cbn [setVar_items]. rewrite (Hv q (index_key i) calls).
      destruct (setVar_entry q (index_key i) v []) as [w [|]]; cbn [fst snd].
      * rewrite (IHrest (calls ++ w)), (IHrest w). cbn [fst snd].
        now rewrite app_assoc.
      * reflexivity.
  - rewrite !setVar_entry_object. generalize (prefix ++ key ++ "-")%string.
    intros q. revert calls.
    induction IH as [|[k v] rest Hv _ IHrest]; intros calls.
    + cbn [setVar fst snd]. now rewrite app_nil_r.
    + cbn [setVar]. cbn [snd] in Hv. rewrite (Hv q k calls).
      destruct (setVar_entry q k v []) as [w [|]]; cbn [fst snd].
      * rewrite (IHrest (calls ++ w)), (IHrest w). cbn [fst snd].
        now rewrite app_assoc.
      * reflexivity.
Qed.

Lemma setVar_appends (prefix : string) (entries : list (string * JSValue)) :
  forall calls : StyleCalls,
    setVar prefix entries calls
    = (calls ++ fst (setVar prefix entries []), snd (setVar prefix entries [])).
Proof.
  induction entries as [|[k v] rest IH]; intros calls.
  - cbn [setVar fst snd]. now rewrite app_nil_r.
  - cbn [setVar]. rewrite (setVar_entry_appends v prefix k calls).
    destruct (setVar_entry prefix k v []) as [w [|]]; cbn [fst snd].
    + rewrite (IH (calls ++ w)), (IH w). cbn [fst snd]. now rewrite app_assoc.
    + reflexivity.
Qed.

Lemma setVar_items_appends (prefix : string) (items : list JSValue) :
  forall (i : nat) (calls : StyleCalls),
    setVar_items prefix i items calls
    = (calls ++ fst (setVar_items prefix i items []),
       snd (setVar_items prefix i items [])).
Proof.
  induction items as [|v rest IH]; intros i calls.
  - cbn [setVar_items fst snd]. now rewrite app_nil_r.
  - cbn [setVar_items]. rewrite (setVar_entry_appends v prefix (index_key i) calls).
    destruct (setVar_entry prefix (index_key i) v []) as [w [|]]; cbn [fst snd].
    + rewrite (IH (S i) (calls ++ w)), (IH (S i) w). cbn [fst snd].
      now rewrite app_assoc.
    + reflexivity.
Qed.

(** The loop over entries, one entry at a time. *)
Lemma setVar_cons (prefix k : string) (v : JSValue)
    (rest : list (string * JSValue)) :
  setVar prefix ((k, v) :: rest) []
  = match snd (setVar_entry prefix k v []) with
    | Completed =>
        (fst (setVar_entry prefix k v []) ++ fst (setVar prefix rest []),
         snd (setVar prefix rest []))
    | TypeError => (fst (setVar_entry prefix k v []), TypeError)
    end.
Proof.
  cbn [setVar]. destruct (setVar_entry prefix k v []) as [w [|]]; cbn [fst snd].
  - apply setVar_appends.
  - reflexivity.
Qed.

Lemma setVar_items_cons (prefix : string) (i : nat) (v : JSValue)
    (rest : list JSValue) :
  setVar_items prefix i (v :: rest) []
  = match snd (setVar_entry prefix (index_key i) v []) with
    | Completed =>
        (fst (setVar_entry prefix (index_key i) v [])
           ++ fst (setVar_items prefix (S i) rest []),
         snd (setVar_items prefix (S i) rest []))
    | TypeError => (fst (setVar_entry prefix (index_key i) v []), TypeError)
    end.
Proof.
  cbn [setVar_items].
  destruct (setVar_entry prefix (index_key i) v []) as [w [|]]; cbn [fst snd].
  - apply setVar_items_appends.
  - reflexivity.
Qed.

(** *** [null] and the [TypeError] *)

Lemma setVar_entry_throws (v : JSValue) :
  forall prefix key : string,
    snd (setVar_entry prefix key v []) = TypeError <-> contains_null v = true.
Proof.
  induction v as [text| |items IH|entries IH] using JSValue_nested_ind;
    intros prefix key.
  - cbn. split; discriminate.
  - cbn. split; reflexivity.
  - rewrite setVar_entry_array. cbn [contains_null].
    generalize (prefix ++ key ++ "-")%string O. intros q.
    induction IH as [|v rest Hv _ IHrest]; intros i.
    + cbn. split; discriminate.
    + rewrite setVar_items_cons. cbn [existsb]. rewrite orb_true_iff.
      rewrite <- (Hv q (index_key i)), <- (IHrest (S i)).
      destruct (snd (setVar_entry q (index_key i) v [])); cbn [snd].
      * split; [now right|]. intros [H|H]; [discriminate H|exact H].
      * split; [now left|reflexivity].
  - rewrite setVar_entry_object. cbn [contains_null].
    generalize (prefix ++ key ++ "-")%string. intros q.
    induction IH as [|[k v] rest Hv _ IHrest].
    + cbn. split; discriminate.
    + rewrite setVar_cons. cbn [existsb snd]. rewrite orb_true_iff.
      cbn [snd] in Hv. rewrite <- (Hv q k), <- IHrest.
      destruct (snd (setVar_entry q k v [])); cbn [snd].
      * split; [now right|]. intros [H|H]; [discriminate H|exact H].
      * split; [now left|reflexivity].
Qed.

Lemma setVar_throws (prefix : string) (entries : list (string * JSValue)) :
  snd (setVar prefix entries []) = TypeError
  <-> existsb (fun kv => contains_null (snd kv)) entries = true.
Proof.
  induction entries as [|[k v] rest IH].
  - cbn. split; discriminate.
  - rewrite setVar_cons. cbn [existsb snd]. rewrite orb_true_iff.
    rewrite <- (setVar_entry_throws v prefix k), <- IH.
    destruct (snd (setVar_entry prefix k v [])); cbn [snd].
    + split; [now right|]. intros [H|H]; [discriminate H|exact H].
    + split; [now left|reflexivity].
Qed.

Lemma outcome_completed (o : Outcome) : o <> TypeError -> o = Completed.
Proof. destruct o; [reflexivity|now intros H]. Qed.

Lemma setVar_entry_completes (v : JSValue) (prefix key : string) :
  contains_null v = false -> snd (setVar_entry prefix key v []) = Completed.
Proof.
  intros Hnull. apply outcome_completed. intros H.
  apply setVar_entry_throws in H. congruence.
Qed.

(** X13.  [generateCSSVariables()] of the first version ends with the
    [TypeError] of [Object.entries(null)] exactly when a [null] occurs
    somewhere in the configuration, however deep. *)
Theorem generateCSSVariables_throws_on_null (config : list (string * JSValue)) :
  snd (generateCSSVariables config) = TypeError
  <-> contains_null (JSObject config) = true.
Proof. unfold generateCSSVariables. apply setVar_throws. Qed.

Lemma generateCSSVariables_throws_witness :
  snd (generateCSSVariables
         (("a", JSPrim "1") :: ("b", JSObject (("c", JSNull) :: nil))
            :: ("d", JSPrim "2") :: nil)%string)
  = TypeError.
Proof.
  apply (proj2 (generateCSSVariables_throws_on_null
                  (("a", JSPrim "1") :: ("b", JSObject (("c", JSNull) :: nil))
                     :: ("d", JSPrim "2") :: nil)%string)).
  reflexivity.
Defined.

(** A [null] in the second of three entries: the first variable is set,
    the third is not. *)
Example null_stops_the_loop :
  generateCSSVariables
    [("a", JSPrim "1"); ("b", JSObject [("c", JSNull)]); ("d", JSPrim "2")]%string
  = (("--a"%string, JSPrim "1") :: nil, TypeError).
Proof. reflexivity. Qed.

(** *** One variable for each string or number *)

Lemma setVar_entry_count (v : JSValue) :
  contains_null v = false ->
  forall prefix key : string,
    List.length (fst (setVar_entry prefix key v [])) = count_prims v.
Proof.
  induction v as [text| |items IH|entries IH] using JSValue_nested_ind;
    intros Hnull prefix key.
  - reflexivity.
  - discriminate Hnull.
  - rewrite setVar_entry_array. cbn [contains_null count_prims] in *.
    generalize (prefix ++ key ++ "-")%string O. intros q.
    induction IH as [|v rest Hv _ IHrest]; intros i; [reflexivity|].
    cbn [existsb] in Hnull. apply orb_false_iff in Hnull as [Hv0 Hrest0].
    rewrite setVar_items_cons, (setVar_entry_completes v q _ Hv0). cbn [fst].
    rewrite length_app, (Hv Hv0 q (index_key i)), (IHrest Hrest0 (S i)).
    reflexivity.
  - rewrite setVar_entry_object. cbn [contains_null count_prims] in *.
    generalize (prefix ++ key ++ "-")%string. intros q.
    induction IH as [|[k v] rest Hv _ IHrest]; [reflexivity|].
    cbn [existsb snd] in Hnull, Hv. apply orb_false_iff in Hnull as [Hv0 Hrest0].
    rewrite setVar_cons, (setVar_entry_completes v q k Hv0). cbn [fst].
    rewrite length_app, (Hv Hv0 q k), (IHrest Hrest0). reflexivity.
Qed.

Lemma setVar_count (prefix : string) (entries : list (string * JSValue)) :
  existsb (fun kv => contains_null (snd kv)) entries = false ->
  List.length (fst (setVar prefix entries []))
  = list_sum (map (fun kv => count_prims (snd kv)) entries).
Proof.
  induction entries as [|[k v] rest IH]; intros Hnull; [reflexivity|].
  cbn [existsb snd] in Hnull. apply orb_false_iff in Hnull as [Hv0 Hrest0].
  rewrite setVar_cons, (setVar_entry_completes v prefix k Hv0). cbn [fst map snd list_sum].
  rewrite length_app, (setVar_entry_count v Hv0 prefix k), (IH Hrest0).
  reflexivity.
Qed.

(** X14.  On a configuration without [null], [generateCSSVariables()] of
    the first version completes and calls [setProperty] once for each
    string or number of the configuration, the items of arrays
    included. *)
Theorem generateCSSVariables_one_call_per_value (config : list (string * JSValue)) :
  contains_null (JSObject config) = false ->
  snd (generateCSSVariables config) = Completed
  /\ List.length (fst (generateCSSVariables config)) = count_prims (JSObject config).
Proof.
  intros Hnull. unfold generateCSSVariables. cbn [contains_null] in Hnull. split.
  - apply outcome_completed. intros H. apply setVar_throws in H. congruence.
  - now apply setVar_count.
Qed.

(** The shipped configuration: 18 + 1 + 2 + 10 + 4 + 2 + 3 = 40 variables. *)
Lemma generateCSSVariables_one_call_witness :
  snd (generateCSSVariables CONFIG_object) = Completed
  /\ List.length (fst (generateCSSVariables CONFIG_object)) = 40%nat.
Proof.
  apply (generateCSSVariables_one_call_per_value CONFIG_object). reflexivity.
Defined.

(** *** The name of a variable is the dashed path of its value *)

Lemma existsb_false_In {A : Type} (f : A -> bool) (l : list A) (x : A) :
  existsb f l = false -> In x l -> f x = false.
Proof.
  intros Hex Hin. destruct (f x) eqn:E; [|reflexivity].
  assert (H : existsb f l = true) by (apply existsb_exists; now exists x).
  congruence.
Qed.

Lemma setVar_In (prefix : string) (entries : list (string * JSValue)) :
  existsb (fun kv => contains_null (snd kv)) entries = false ->
  forall x,
    In x (fst (setVar prefix entries []))
    <-> exists k v, In (k, v) entries /\ In x (fst (setVar_entry prefix k v [])).
Proof.
  induction entries as [|[k v] rest IH]; intros Hnull x.
  - cbn. split; [contradiction|]. intros (k & v & [] & _).
  - cbn [existsb snd] in Hnull. apply orb_false_iff in Hnull as [Hv0 Hrest0].
    rewrite setVar_cons, (setVar_entry_completes v prefix k Hv0). cbn [fst].
    rewrite in_app_iff, (IH Hrest0 x). split.
    + intros [H|(k' & v' & Hin & H)].
      * exists k, v. split; [now left|exact H].
      * exists k', v'. split; [now right|exact H].
    + intros (k' & v' & [Heq|Hin] & H).
      * injection Heq as <- <-. now left.
      * right. now exists k', v'.
Qed.

Lemma setVar_items_In (prefix : string) (items : list JSValue) :
  existsb contains_null items = false ->
  forall (i : nat) x,
    In x (fst (setVar_items prefix i items []))
    <-> exists j v, nth_error items j = Some v
                    /\ In x (fst (setVar_entry prefix (index_key (i + j)) v [])).
Proof.
  induction items as [|v rest IH]; intros Hnull i x.
  - cbn. split; [contradiction|]. intros ([|j] & v & H & _); discriminate H.
  - cbn [existsb] in Hnull. apply orb_false_iff in Hnull as [Hv0 Hrest0].
    rewrite setVar_items_cons, (setVar_entry_completes v prefix _ Hv0). cbn [fst].
    rewrite in_app_iff, (IH Hrest0 (S i) x). split.
    + intros [H|(j & v' & Hnth & H)].
      * exists O, v. rewrite Nat.add_0_r. split; [reflexivity|exact H].
      * exists (S j), v'. rewrite Nat.add_succ_r. split; [exact Hnth|exact H].
    + intros ([|j] & v' & Hnth & H); cbn [nth_error] in Hnth.
      * injection Hnth as <-. rewrite Nat.add_0_r in H. now left.
      * right. exists j, v'. rewrite Nat.add_succ_r in H. now split.
Qed.

Lemma css_name_step (prefix k k' : string) (path : list string) :
  ("--" ++ (prefix ++ k ++ "-") ++ String.concat "-" (k' :: path))%string
  = ("--" ++ prefix ++ String.concat "-" (k :: k' :: path))%string.
Proof.
  change (String.concat "-" (k :: k' :: path))
    with (k ++ "-" ++ String.concat "-" (k' :: path))%string.
  f_equal. now rewrite !append_assoc.
Qed.

Lemma setVar_entry_leaves (v : JSValue) :
  contains_null v = false ->
  forall (prefix key name : string) (value : JSValue),
    In (name, value) (fst (setVar_entry prefix key v []))
    <-> exists path text,
          leaf_at path v text
          /\ name = ("--" ++ prefix ++ String.concat "-" (key :: path))%string
          /\ value = JSPrim text.
Proof.
  induction v as [text| |items IH|entries IH] using JSValue_nested_ind;
    intros Hnull prefix key name value.
  - cbn [setVar_entry fst app In]. split.
    + intros [Heq|[]]. injection Heq as <- <-.
      exists [], text. repeat split. constructor.
    + intros (path & text' & Hleaf & -> & ->). inversion Hleaf; subst. now left.
  - discriminate Hnull.
  - cbn [contains_null] in Hnull.
    rewrite setVar_entry_array, (setVar_items_In _ items Hnull). split.
    + intros (j & v & Hnth & Hin). cbn [Nat.add] in Hin.
      pose proof (nth_error_In _ _ Hnth) as Hmem.
      rewrite Forall_forall in IH.
      apply (IH v Hmem (existsb_false_In _ _ _ Hnull Hmem)) in Hin.
      destruct Hin as (path & text & Hleaf & -> & ->).
      exists (index_key j :: path), text. split; [|split].
      * now apply leaf_in_array with v.
      * apply css_name_step.
      * reflexivity.
    + intros (path & text & Hleaf & -> & ->). inversion Hleaf; subst.
      match goal with H : nth_error items ?i = Some ?v |- _ =>
        exists i, v; split; [exact H|];
        pose proof (nth_error_In _ _ H) as Hmem end.
      rewrite Forall_forall in IH. cbn [Nat.add].
      apply (IH _ Hmem (existsb_false_In _ _ _ Hnull Hmem)).
      eexists; eexists. split; [eassumption|]. split; [|reflexivity].
      symmetry. apply css_name_step.
  - cbn [contains_null] in Hnull.
    rewrite setVar_entry_object, (setVar_In _ entries Hnull). split.
    + intros (k & v & Hmem & Hin).
      rewrite Forall_forall in IH.
      apply (IH (k, v) Hmem (existsb_false_In _ _ (k, v) Hnull Hmem)) in Hin.
      destruct Hin as (path & text & Hleaf & -> & ->).
      exists (k :: path), text. split; [|split].
      * now apply leaf_in_object with v.
      * apply css_name_step.
      * reflexivity.
    + intros (path & text & Hleaf & -> & ->). inversion Hleaf; subst.
      match goal with H : In (?k, ?v) entries |- _ =>
        exists k, v; split; [exact H|]; rename H into Hmem end.
      rewrite Forall_forall in IH.
      apply (IH _ Hmem (existsb_false_In _ _ _ Hnull Hmem)).
      eexists; eexists. split; [eassumption|]. split; [|reflexivity].
      symmetry. apply css_name_step.
Qed.

(** X15.  On a configuration without [null], the variables
    [generateCSSVariables()] of the first version sets are exactly the
    strings and numbers of the configuration, each under the name made of
    [--] and the keys on the way to it joined by [-] (an item of an array
    under its index): [CONFIG.box.width] is [--box-width],
    [CONFIG.bubbles.colors[3]] is [--bubbles-colors-3]. *)
Theorem generateCSSVariables_names_are_paths (config : list (string * JSValue)) :
  contains_null (JSObject config) = false ->
  forall (name : string) (value : JSValue),
    In (name, value) (fst (generateCSSVariables config))
    <-> exists k path text,
          leaf_at (k :: path) (JSObject config) text
          /\ name = ("--" ++ String.concat "-" (k :: path))%string
          /\ value = JSPrim text.
Proof.
  intros Hnull name value. unfold generateCSSVariables.
  cbn [contains_null] in Hnull. rewrite (setVar_In "" config Hnull). split.
  - intros (k & v & Hmem & Hin).
    apply (setVar_entry_leaves v (existsb_false_In _ _ (k, v) Hnull Hmem)) in Hin.
    destruct Hin as (path & text & Hleaf & -> & ->).
    exists k, path, text. split; [|split; reflexivity].
    now apply leaf_in_object with v.
  - intros (k & path & text & Hleaf & -> & ->). inversion Hleaf; subst.
    match goal with H : In (?k, ?v) config |- _ =>
      exists k, v; split; [exact H|]; rename H into Hmem end.
    apply (setVar_entry_leaves _ (existsb_false_In _ _ _ Hnull Hmem)).
    eexists; eexists. split; [eassumption|]. split; reflexivity.
Qed.

(** The shipped configuration: a value of an object and an item of an
    array. *)
Lemma generateCSSVariables_names_witness :
  In ("--box-width"%string, JSPrim "300px")
     (fst (generateCSSVariables CONFIG_object))
  /\ In ("--bubbles-colors-3"%string, JSPrim "rgba(255, 189, 89, 1)")
        (fst (generateCSSVariables CONFIG_object)).
Proof.
  split.
  - apply (proj2 (generateCSSVariables_names_are_paths CONFIG_object eq_refl _ _)).
    exists "box"%string, ("width"%string :: nil), "300px"%string.
    split; [|split; reflexivity].
    eapply leaf_in_object; [left; reflexivity|].
    eapply leaf_in_object; [left; reflexivity|]. constructor.
  - apply (proj2 (generateCSSVariables_names_are_paths CONFIG_object eq_refl _ _)).
    exists "bubbles"%string, ("colors"%string :: index_key 3 :: nil),
      "rgba(255, 189, 89, 1)"%string.
    split; [|split; reflexivity].
    eapply leaf_in_object; [right; left; reflexivity|].
    eapply leaf_in_object; [right; right; left; reflexivity|].
    eapply (leaf_in_array 3); [reflexivity|]. constructor.
Defined.

(** *** The two versions of [setVar] *)

Lemma setVar2_entry_object (prefix key : string)
    (entries : list (string * JSValue)) (calls : StyleCalls) :
  setVar2_entry prefix key (JSObject entries) calls
  = setVar2 (match prefix with
             | EmptyString => key
             | _ => (prefix ++ "-" ++ key)%string
             end) entries calls.
Proof.
  cbn [setVar2_entry]. revert calls.
  induction entries as [|[k v] rest IH]; intros calls; [reflexivity|].
  cbn [setVar2]. apply IH.
Qed.

Lemma versions_agree_on_entry (v : JSValue) :
  plain v = true ->
  forall (prefix key : string) (calls : StyleCalls),
    prefix <> ""%string ->
    setVar_entry (prefix ++ "-") key v calls
    = (setVar2_entry prefix key v calls, Completed).
Proof.
  induction v as [text| |items IH|entries IH] using JSValue_nested_ind;
    intros Hplain prefix key calls Hprefix.
  - destruct prefix as [|ch prefix]; [contradiction|].
    cbn [setVar_entry setVar2_entry]. do 4 f_equal.
    now rewrite !append_assoc.
  - discriminate Hplain.
  - discriminate Hplain.
  - rewrite setVar_entry_object, setVar2_entry_object.
    destruct prefix as [|ch prefix]; [contradiction|].
    set (p := String ch prefix) in *.
    replace ((p ++ "-") ++ key ++ "-")%string with ((p ++ "-" ++ key) ++ "-")%string
      by now rewrite !append_assoc.
    assert (Hne : (p ++ "-" ++ key)%string <> ""%string) by discriminate.
    revert Hne. generalize (p ++ "-" ++ key)%string. intros q Hq.
    cbn [plain] in Hplain. clear Hprefix p. revert calls.
    induction IH as [|[k v] rest Hv _ IHrest]; intros calls; [reflexivity|].
    cbn [forallb snd] in Hplain, Hv. apply andb_true_iff in Hplain as [Hv1 Hrest1].
    cbn [setVar setVar2]. rewrite (Hv Hv1 q k calls Hq). now apply IHrest.
Qed.

(** X16.  The two versions of [generateCSSVariables()] set the same
    variables, in the same order, for a section of the configuration made
    of nested objects, strings and numbers only: what the first version
    does for the entry [key] of [CONFIG] is what [setVar(key, CONFIG[key])]
    of the second version does. *)
Theorem versions_agree_on_plain_section (key : string)
    (section : list (string * JSValue)) (calls : StyleCalls) :
  key <> ""%string ->
  plain (JSObject section) = true ->
  setVar_entry "" key (JSObject section) calls = (setVar2 key section calls, Completed).
Proof.
  intros Hkey Hplain. rewrite setVar_entry_object.
  change ("" ++ key ++ "-")%string with (key ++ "-")%string.
  cbn [plain] in Hplain. revert calls.
  induction section as [|[k v] rest IH]; intros calls; [reflexivity|].
  cbn [forallb snd] in Hplain. apply andb_true_iff in Hplain as [Hv Hrest].
  cbn [setVar setVar2]. rewrite (versions_agree_on_entry v Hv key k calls Hkey).
  now apply IH.
Qed.

(** The [scene] section of the shipped configuration. *)
Lemma versions_agree_witness :
  setVar_entry "" "scene"
    (JSObject
       [("perspective", JSPrim "1000px"); ("padding", JSPrim "50px");
        ("containerGap", JSPrim "40px")]%string) []
  = (setVar2 "scene"
       [("perspective", JSPrim "1000px"); ("padding", JSPrim "50px");
        ("containerGap", JSPrim "40px")]%string [],
     Completed).
Proof.
  apply versions_agree_on_plain_section; [discriminate|reflexivity].
Defined.

(** Where the versions differ: the first expands an array into one
    variable for each item, the second passes the array itself. *)
Example versions_differ_on_arrays :
  setVar_entry "" "palette"
    (JSObject (("colors", JSArray (JSPrim "red" :: JSPrim "blue" :: nil)) :: nil)%string)
    nil
  = (("--palette-colors-0", JSPrim "red")
       :: ("--palette-colors-1", JSPrim "blue") :: nil, Completed)%string
  /\ setVar2 "palette"
       (("colors", JSArray (JSPrim "red" :: JSPrim "blue" :: nil)) :: nil)%string nil
     = (("--palette-colors", JSArray (JSPrim "red" :: JSPrim "blue" :: nil)) :: nil)%string.
Proof. split; reflexivity. Qed.


(** * A [NaN] in [current] *)

Lemma lerp_NaN (end_ factor : number) : lerp NaN end_ factor = NaN.
Proof. reflexivity. Qed.

Lemma isNearRest_NaN (cfg : BoxConfig) (cur : Orientation) (prop : PropName) :
  getProp prop cur = NaN -> isNearRest cfg cur = false.
Proof.
  intros Hnan. destruct (isNearRest cfg cur) eqn:E; [|reflexivity].
  rewrite isNearRest_spec in E. specialize (E prop). rewrite Hnan in E.
  discriminate E.
Qed.

Lemma step_keeps_NaN (cfg : BoxConfig) (fb : FloatingBox) (ev : Event)
    (prop : PropName) :
  getProp prop (current fb) = NaN ->
  getProp prop (current (step cfg fb ev)) = NaN.
Proof.
  intros Hnan. destruct ev as [|e rect| |]; cbn [step].
  - exact Hnan.
  - unfold handleMouseMove. destruct (isHovered fb); exact Hnan.
  - exact Hnan.
  - unfold updateFrame, updateTransforms. cbn [current].
    assert (Hstepped : getProp prop
                         (interpolate (Fin (motionSpeed cfg)) (target fb) (current fb))
                       = NaN).
    { rewrite interpolate_prop, Hnan. reflexivity. }
    unfold restSnap. rewrite (isNearRest_NaN cfg _ prop Hstepped), andb_false_r.
    exact Hstepped.
Qed.

(** X17.  A [NaN] in a field of [current] is permanent: whatever events
    and frames follow, hovered or not, with any configuration, that field
    stays [NaN]; the interpolation keeps it and the rest snap never fires
    on it. *)
Theorem NaN_in_current_is_permanent (cfg : BoxConfig) (evs : list Event)
    (fb : FloatingBox) (prop : PropName) :
  getProp prop (current fb) = NaN ->
  getProp prop (current (fold_left (step cfg) evs fb)) = NaN.
Proof.
  revert fb. induction evs as [|ev evs IH]; intros fb Hnan; [exact Hnan|].
  cbn [fold_left]. apply IH. now apply step_keeps_NaN.
Qed.

(** A hovered box, a move over a box of zero width with the pointer on
    its left edge (0/0), one frame: [rotateY] is [NaN], and leaving and
    waiting does not bring it back. *)
Lemma NaN_in_current_witness :
  getProp P_rotateY
    (current
       (fold_left (step CONFIG_box) [MouseLeave; Frame; Frame; MouseEnter; Frame]
          (run CONFIG_box
             [MouseEnter; MouseMove (pointer_at 100 200) flat_rect; Frame])))
  = NaN.
Proof.
  apply (NaN_in_current_is_permanent CONFIG_box
           [MouseLeave; Frame; Frame; MouseEnter; Frame]
           (run CONFIG_box
              [MouseEnter; MouseMove (pointer_at 100 200) flat_rect; Frame])
           P_rotateY).
  reflexivity.
Defined.


(** * The rounding of binary64 *)

(** Where the exact numbers keep approaching, the binary64 numbers stop:
    200 hovered frames toward 100 at speed 0.25 end at a number below 100
    that the next frame leaves where it is. *)
Example doubles_stop_short_of_the_target :
  let x := Nat.iter 200 (fun x => Double.lerp x 100 0.25) 0%float in
  (x <? 100)%float = true /\ Double.lerp x 100 0.25 = x.
Proof. cbv zeta. split; vm_compute; reflexivity. Qed.

(** A speed too small for binary64: the frame leaves 15 at 15. *)
Example doubles_ignore_a_tiny_speed :
  Double.lerp 15 0 1e-17 = 15%float.
Proof. vm_compute. reflexivity. Qed.

(** The largest draw below 1 and the range from 10 to 20: in binary64
    [getRandomRange] returns 20 itself. *)
Example doubles_reach_the_upper_end :
  ((1 - 0x1p-53) <? 1)%float = true
  /\ Double.getRandomRange (1 - 0x1p-53) 10 20 = 20%float.
Proof. split; vm_compute; reflexivity. Qed.
